(** * Block and block-header codec of [cos/bc/block.go]

    A shallow embedding of the canonical binary encoding of blocks and
    block headers, of the commitment accessors and of the persistence
    hooks ([Scan] / [Value]), together with the properties the
    specification states about them.

    Unsigned machine integers are values of [N] with their wrap-around
    written out, byte slices are [list byte], the latching reader and
    writer of package [chain/errors] are threaded through a small state
    monad. *)

From Stdlib Require Import List NArith ZArith Lia Bool.
From Stdlib.Strings Require Import Byte.
From Stdlib.Strings Require String.
Import ListNotations.

Set Implicit Arguments.

(* ================================================================== *)
(** ** State passing *)

Definition State (S A : Type) : Type := S -> A * S.

Definition ret {S A : Type} (a : A) : State S A := fun s => (a, s).

Definition bind {S A B : Type} (m : State S A) (k : A -> State S B)
  : State S B :=
  fun s => let (a, s') := m s in k a s'.

Declare Scope state_scope.
Delimit Scope state_scope with state.

Notation "x <- m ;; k" := (bind m (fun x => k))
  (at level 61, m at next level, right associativity) : state_scope.
Notation "m ;;; k" := (bind m (fun _ => k))
  (at level 61, right associativity) : state_scope.

Local Open Scope state_scope.
Local Open Scope N_scope.

(* ================================================================== *)
(** ** Bytes and machine integers *)

(** [byte(x)]: the conversion of an unsigned integer to a byte keeps the
    low eight bits. *)
Definition byte_of_N (x : N) : byte :=
  match Byte.of_N (x mod 256) with
  | Some b => b
  | None => x00
  end.

(** [make([]byte, n)]: a zeroed slice. *)
Definition make (n : nat) : list byte := repeat x00 n.

(** The builtin [copy(dst, src)]: overwrites the first
    [min(len(dst), len(src))] bytes of [dst], whose length is kept. *)
Definition copy (dst src : list byte) : list byte :=
  firstn (length dst) src ++ skipn (length src) dst.

(** [uint64(len(s))]. *)
Definition len64 (s : list byte) : N := N.of_nat (length s) mod 2 ^ 64.

(** The largest value of Go's [int] (64-bit platform), which bounds the
    length of a slice. *)
Definition maxInt : N := 2 ^ 63 - 1.

(** [int64(x)] for an unsigned 64-bit [x]: reinterpretation in two's
    complement. *)
Definition int64 (x : N) : Z :=
  let z := (Z.of_N x mod 2 ^ 64)%Z in
  if (z <? 2 ^ 63)%Z then z else (z - 2 ^ 64)%Z.

(** Signed 64-bit wrap-around of an integer result. *)
Definition wrap64 (z : Z) : Z :=
  let u := (z mod 2 ^ 64)%Z in
  if (u <? 2 ^ 63)%Z then u else (u - 2 ^ 64)%Z.

(* ================================================================== *)
(** ** Errors *)

(** Modelled from the spec: the codec error taxonomy of package
    [chain/encoding/blockchain] and of the byte source, which is not among
    the sources: [TruncatedInput] when fewer bytes remain than a field
    requires, [MalformedValue] for an invalid variable-length integer. *)
Inductive io_error : Type :=
| TruncatedInput
| MalformedValue.

(** The [error] values that the functions of [block.go] return: the one
    built by [errors.New("Scan must receive a byte slice")], or the error
    latched in the reader. *)
Inductive error : Type :=
| ErrScanByteSlice
| ErrCodec (e : io_error).

(* ================================================================== *)
(** ** The latching reader and writer of package [chain/errors] *)

(** Modelled from the spec: [errors.Reader], which is not among the
    sources. [block.go] builds it as [&errors.Reader{R: bytes.NewReader(buf)}]
    and returns its field [Err]; it wraps a byte source and remembers the
    first error, after which every read delivers nothing. *)
Record Reader : Type := mkReader {
  R : list byte;
  Err : option io_error
}.

Definition NewReader (buf : list byte) : Reader := mkReader buf None.

(** Records [e] unless an error is latched already. *)
Definition Reader_fail (e : io_error) : State Reader unit :=
  fun r =>
    match Err r with
    | Some _ => (tt, r)
    | None => (tt, mkReader (R r) (Some e))
    end.

(** [io.ReadFull(r, buf)]: fills [buf] from the reader. With too few bytes
    left, the bytes that were available are stored in the front of [buf],
    the rest of [buf] keeps its content and the reader latches
    [TruncatedInput]. The updated buffer is returned. *)
Definition ReadFull (buf : list byte) : State Reader (list byte) :=
  fun r =>
    match Err r with
    | Some _ => (buf, r)
    | None =>
        if (length buf <=? length (R r))%nat
        then (firstn (length buf) (R r),
              mkReader (skipn (length buf) (R r)) None)
        else (copy buf (R r), mkReader [] (Some TruncatedInput))
    end.

(** Reading a single byte. *)
Definition ReadByte : State Reader (option byte) :=
  fun r =>
    match Err r with
    | Some _ => (None, r)
    | None =>
        match R r with
        | [] => (None, mkReader [] (Some TruncatedInput))
        | b :: bs => (Some b, mkReader bs None)
        end
    end.

(** Modelled from the spec: [errors.Writer], which is not among the
    sources. It wraps a sink, counts the bytes written ([Written]) and
    remembers the first error ([Err]). The sinks that [block.go] writes to
    are a [bytes.Buffer] and a running hash, modelled by the bytes they
    have received; neither of them fails. *)
Record Writer : Type := mkWriter {
  W : list byte;
  Written : Z;
  WErr : option error
}.

Definition NewWriter (w : list byte) : Writer := mkWriter w 0%Z None.

Definition Writer_Write (p : list byte) : State Writer unit :=
  fun w =>
    match WErr w with
    | Some _ => (tt, w)
    | None =>
        (tt, mkWriter (W w ++ p) (Written w + Z.of_nat (length p))%Z None)
    end.

(* ================================================================== *)
(** ** Primitive codec: package [chain/encoding/blockchain] *)

(** Little-endian bytes of the low [8 * k] bits of [x]. *)
Fixpoint le_bytes (k : nat) (x : N) : list byte :=
  match k with
  | O => []
  | S k' => byte_of_N x :: le_bytes k' (x / 256)
  end.

(** The unsigned integer that a little-endian byte string denotes. *)
Fixpoint le_value (bs : list byte) : N :=
  match bs with
  | [] => 0
  | b :: bs' => Byte.to_N b + 256 * le_value bs'
  end.

(** Modelled from the spec: [blockchain.WriteUint32] and
    [blockchain.WriteUint64], which are not among the sources: fixed-width
    unsigned integers in a single fixed byte order (little-endian here). *)
Definition blockchain_WriteUint32 (v : N) : State Writer unit :=
  Writer_Write (le_bytes 4 v).

Definition blockchain_WriteUint64 (v : N) : State Writer unit :=
  Writer_Write (le_bytes 8 v).

(** Modelled from the spec: [blockchain.ReadUint32] and
    [blockchain.ReadUint64], which are not among the sources; they latch
    [TruncatedInput] in the reader when fewer bytes remain than the width. *)
Definition blockchain_ReadUint32 : State Reader N :=
  bs <- ReadFull (make 4) ;; ret (le_value bs).

Definition blockchain_ReadUint64 : State Reader N :=
  bs <- ReadFull (make 8) ;; ret (le_value bs).

(** The bytes of the variable-length encoding of [x]: seven bits a byte,
    low bits first, the high bit of a byte set when more bytes follow.
    At most [fuel + 1] bytes are produced; nine continuation bytes are
    enough for 64 bits. *)
Fixpoint uvarint_bytes (fuel : nat) (x : N) : list byte :=
  match fuel with
  | O => [byte_of_N x]
  | S f =>
      if x <? 128 then [byte_of_N x]
      else byte_of_N (x mod 128 + 128) :: uvarint_bytes f (x / 128)
  end.

(** Modelled from the spec: [blockchain.WriteUvarint], which is not among
    the sources: the minimal variable-length representation of an unsigned
    64-bit integer. *)
Definition blockchain_WriteUvarint (x : N) : State Writer unit :=
  Writer_Write (uvarint_bytes 9 (x mod 2 ^ 64)).

(** The decoding loop: [fuel] bytes may still be read, [s] is the shift of
    the next seven bits and [x] the value accumulated so far. A tenth byte
    above 1 or an eleventh byte overflows 64 bits; a final zero byte after
    a continuation byte is a redundant encoding. Both latch
    [MalformedValue]; the value delivered on failure is 0. *)
Fixpoint uvarint_loop (fuel : nat) (s x : N) : State Reader N :=
  match fuel with
  | O => Reader_fail MalformedValue ;;; ret 0
  | S f =>
      ob <- ReadByte ;;
      match ob with
      | None => ret 0
      | Some b =>
          let v := Byte.to_N b in
          if v <? 128 then
            if (Nat.eqb f 0 && (1 <? v)) || ((v =? 0) && (0 <? s))
            then Reader_fail MalformedValue ;;; ret 0
            else ret (x + v * 2 ^ s)
          else uvarint_loop f (s + 7) (x + (v - 128) * 2 ^ s)
      end
  end.

(** Modelled from the spec: [blockchain.ReadUvarint], which is not among
    the sources; a short input latches [TruncatedInput], a non-minimal or
    overflowing representation latches [MalformedValue]. *)
Definition blockchain_ReadUvarint : State Reader N :=
  uvarint_loop 10 0 0.

(** Modelled from the spec: [blockchain.WriteBytes], which is not among
    the sources: the length as a variable-length integer, then the raw
    bytes. *)
Definition blockchain_WriteBytes (data : list byte) : State Writer unit :=
  blockchain_WriteUvarint (len64 data) ;;; Writer_Write data.

(** Modelled from the spec: [blockchain.ReadBytes], which is not among the
    sources: reads the length prefix, then that many raw bytes into a new
    slice, which replaces the slice that the pointer designates. *)
Definition blockchain_ReadBytes : State Reader (list byte) :=
  n <- blockchain_ReadUvarint ;; ReadFull (make (N.to_nat n)).

(* ================================================================== *)
(** ** Calendar time: Go's package [time] *)

Inductive Location : Type := UTC | Local.

(** A [time.Time]: seconds since January 1 of year 1 as a signed 64-bit
    integer, nanoseconds within the second, and the location in which the
    instant is presented. *)
Record Time : Type := mkTime {
  sec : Z;
  nsec : Z;
  loc : Location
}.

(** Seconds from January 1 of year 1 to the Unix epoch. *)
Definition unixToInternal : Z := 62135596800.

(** [time.Unix(sec, nsec)]: normalises [nsec] into [0, 1e9) and adds the
    epoch offset in signed 64-bit arithmetic. *)
Definition time_Unix (s n : Z) : Time :=
  let '(s1, n1) :=
    if ((n <? 0) || (n >=? 10 ^ 9))%Z then
      let q := Z.quot n (10 ^ 9) in
      let s' := wrap64 (s + q) in
      let n' := (n - q * 10 ^ 9)%Z in
      if (n' <? 0)%Z then (wrap64 (s' - 1), (n' + 10 ^ 9)%Z) else (s', n')
    else (s, n) in
  mkTime (wrap64 (s1 + unixToInternal)) n1 Local.

(** [t.UTC()]: the same instant, presented in UTC. *)
Definition Time_UTC (t : Time) : Time := mkTime (sec t) (nsec t) UTC.

(** The instant that [t] denotes, in whole seconds after the Unix epoch. *)
Definition Time_epoch_seconds (t : Time) : Z := (sec t - unixToInternal)%Z.

(* ================================================================== *)
(** ** Values handed over by the storage driver *)

(** The dynamic types of a [driver.Value], the argument of [Scan]. A
    float is kept as its bit pattern. *)
Inductive Value : Type :=
| VNil
| VInt64 (z : Z)
| VFloat64 (bits : N)
| VBool (b : bool)
| VBytes (buf : list byte)
| VString (s : String.string)
| VTime (t : Time).

Definition is_bytes (val : Value) : bool :=
  match val with
  | VBytes _ => true
  | _ => false
  end.

(* ================================================================== *)
(** ** Block headers *)

(** [Hash] is [[32]byte]; a well-formed hash has exactly 32 bytes. *)
Definition Hash : Type := list byte.

Definition wf_Hash (h : Hash) : Prop := length h = 32%nat.

(** [var hash Hash]: the all-zero digest. *)
Definition zeroHash : Hash := make 32.

Record BlockHeader : Type := mkBlockHeader {
  Version : N;
  Height : N;
  PreviousBlockHash : Hash;
  Commitment : list byte;
  Timestamp : N;
  SignatureScript : list byte;
  OutputScript : list byte
}.

(** The zero value of a header, a fresh receiver. *)
Definition zeroBlockHeader : BlockHeader :=
  mkBlockHeader 0 0 zeroHash [] 0 [] [].

Definition set_Commitment (c : list byte) (bh : BlockHeader) : BlockHeader :=
  mkBlockHeader (Version bh) (Height bh) (PreviousBlockHash bh) c
                (Timestamp bh) (SignatureScript bh) (OutputScript bh).

Definition set_SignatureScript (s : list byte) (bh : BlockHeader)
  : BlockHeader :=
  mkBlockHeader (Version bh) (Height bh) (PreviousBlockHash bh)
                (Commitment bh) (Timestamp bh) s (OutputScript bh).

(** The range of the fields' machine types. *)
Definition wf_BlockHeader (bh : BlockHeader) : Prop :=
  Version bh < 2 ^ 32 /\
  Height bh < 2 ^ 64 /\
  wf_Hash (PreviousBlockHash bh) /\
  N.of_nat (length (Commitment bh)) < 2 ^ 64 /\
  Timestamp bh < 2 ^ 64 /\
  N.of_nat (length (SignatureScript bh)) < 2 ^ 64 /\
  N.of_nat (length (OutputScript bh)) < 2 ^ 64.

(** [BlockHeader.Time]. *)
Definition BlockHeader_Time (bh : BlockHeader) : Time :=
  Time_UTC (time_Unix (int64 (Timestamp bh)) 0).

(** [BlockHeader.TxRoot]. *)
Definition BlockHeader_TxRoot (bh : BlockHeader) : Hash :=
  let hash := zeroHash in
  if (32 <=? length (Commitment bh))%nat
  then copy hash (firstn 32 (Commitment bh))
  else hash.

(** [BlockHeader.SetTxRoot]. *)
Definition BlockHeader_SetTxRoot (h : Hash) (bh : BlockHeader)
  : BlockHeader :=
  let c := if (length (Commitment bh) <? 32)%nat
           then make 32 else Commitment bh in
  set_Commitment (copy (firstn 32 c) h ++ skipn 32 c) bh.

(** [BlockHeader.StateRoot]. *)
Definition BlockHeader_StateRoot (bh : BlockHeader) : Hash :=
  let hash := zeroHash in
  if (64 <=? length (Commitment bh))%nat
  then copy hash (firstn 32 (skipn 32 (Commitment bh)))
  else hash.

(** [BlockHeader.SetStateRoot]. *)
Definition BlockHeader_SetStateRoot (h : Hash) (bh : BlockHeader)
  : BlockHeader :=
  let c := if (length (Commitment bh) <? 64)%nat
           then copy (make 64) (Commitment bh) else Commitment bh in
  set_Commitment
    (firstn 32 c ++ copy (firstn 32 (skipn 32 c)) h ++ skipn 64 c) bh.

(** [BlockHeader.readFrom]: the fields are assigned in order from the
    reader; the receiver's hash array is filled in place. *)
Definition BlockHeader_readFrom (bh : BlockHeader)
  : State Reader BlockHeader :=
  v <- blockchain_ReadUint32 ;;
  h <- blockchain_ReadUint64 ;;
  p <- ReadFull (PreviousBlockHash bh) ;;
  c <- blockchain_ReadBytes ;;
  t <- blockchain_ReadUint64 ;;
  s <- blockchain_ReadBytes ;;
  o <- blockchain_ReadBytes ;;
  ret (mkBlockHeader v h p c t s o).

(** [BlockHeader.writeTo]. *)
Definition BlockHeader_writeTo (bh : BlockHeader) (forSigning : bool)
  : State Writer unit :=
  blockchain_WriteUint32 (Version bh) ;;;
  blockchain_WriteUint64 (Height bh) ;;;
  Writer_Write (PreviousBlockHash bh) ;;;
  blockchain_WriteBytes (Commitment bh) ;;;
  blockchain_WriteUint64 (Timestamp bh) ;;;
  (if forSigning
   then blockchain_WriteBytes []
   else blockchain_WriteBytes (SignatureScript bh)) ;;;
  blockchain_WriteBytes (OutputScript bh).

(** What a [WriteTo] method delivers: the count and error of the latching
    writer, and the sink after the call. *)
Definition finish (ew : Writer) : (Z * option error) * list byte :=
  ((Written ew, WErr ew), W ew).

(** [BlockHeader.WriteTo]; [w] is the content of the sink before. *)
Definition BlockHeader_WriteTo (bh : BlockHeader) (w : list byte)
  : (Z * option error) * list byte :=
  finish (snd (BlockHeader_writeTo bh false (NewWriter w))).

(** [BlockHeader.WriteForSigTo]. *)
Definition BlockHeader_WriteForSigTo (bh : BlockHeader) (w : list byte)
  : (Z * option error) * list byte :=
  finish (snd (BlockHeader_writeTo bh true (NewWriter w))).

(** [BlockHeader.Scan]: the receiver after the call and the error. *)
Definition BlockHeader_Scan (val : Value) (bh : BlockHeader)
  : BlockHeader * option error :=
  match val with
  | VBytes buf =>
      let (bh', r) := BlockHeader_readFrom bh (NewReader buf) in
      (bh', option_map ErrCodec (Err r))
  | _ => (bh, Some ErrScanByteSlice)
  end.

(** [BlockHeader.Value]. *)
Definition BlockHeader_Value (bh : BlockHeader) : Value * option error :=
  let '((_, err), buf) := BlockHeader_WriteTo bh [] in
  match err with
  | Some e => (VNil, Some e)
  | None => (VBytes buf, None)
  end.

(** The Full and ForSigning encodings of a header as byte strings. *)
Definition BlockHeader_bytes (bh : BlockHeader) : list byte :=
  snd (BlockHeader_WriteTo bh []).

Definition BlockHeader_sig_bytes (bh : BlockHeader) : list byte :=
  snd (BlockHeader_WriteForSigTo bh []).

(* ================================================================== *)
(** ** Vocabulary for the codec properties *)

(** [emits m bs]: on a writer without error, [m] appends exactly [bs] to
    the sink and counts its length. *)
Definition emits (m : State Writer unit) (bs : list byte) : Prop :=
  forall w, WErr w = None ->
    m w = (tt, mkWriter (W w ++ bs)
                        (Written w + Z.of_nat (length bs))%Z None).

(** [parses m bs a]: on a reader without error whose input starts with
    [bs], [m] consumes exactly [bs], delivers [a] and latches no error. *)
Definition parses {A : Type} (m : State Reader A) (bs : list byte) (a : A)
  : Prop :=
  forall rest, m (mkReader (bs ++ rest) None) = (a, mkReader rest None).

(** [latching m]: on a reader with a latched error, [m] reads nothing and
    keeps the error. *)
Definition latching {A : Type} (m : State Reader A) : Prop :=
  forall r e, Err r = Some e -> snd (m r) = r.

(** [truncating m bs]: on every proper prefix of [bs], [m] latches
    [TruncatedInput]. *)
Definition truncating {A : Type} (m : State Reader A) (bs : list byte)
  : Prop :=
  forall k, (k < length bs)%nat ->
    Err (snd (m (NewReader (firstn k bs)))) = Some TruncatedInput.

(** The variable-length encoding of an unsigned 64-bit integer. *)
Definition uvarint (x : N) : list byte := uvarint_bytes 9 (x mod 2 ^ 64).

(** A length-prefixed byte string. *)
Definition varstring (data : list byte) : list byte :=
  uvarint (len64 data) ++ data.

(** The layout of a header, field by field. *)
Definition header_layout (bh : BlockHeader) (forSigning : bool)
  : list byte :=
  le_bytes 4 (Version bh) ++
  le_bytes 8 (Height bh) ++
  PreviousBlockHash bh ++
  varstring (Commitment bh) ++
  le_bytes 8 (Timestamp bh) ++
  varstring (if forSigning then [] else SignatureScript bh) ++
  varstring (OutputScript bh).

(* ================================================================== *)
(** ** A sample transaction payload *)

(** The fields of [TxData] are outside the sources and the specification.
    This cut-down payload (a version, a lock time and a metadata string)
    with its canonical encoding instantiates the payload codec that the
    block codec is parameterised by. *)
Record SampleTxData : Type := mkSampleTxData {
  SVersion : N;
  SLockTime : N;
  SMetadata : list byte
}.

Definition SampleTxData_valid (d : SampleTxData) : Prop :=
  SVersion d < 2 ^ 32 /\
  SLockTime d < 2 ^ 64 /\
  N.of_nat (length (SMetadata d)) < 2 ^ 64.

Definition SampleTxData_writeTo (d : SampleTxData) : State Writer unit :=
  blockchain_WriteUint32 (SVersion d) ;;;
  blockchain_WriteUint64 (SLockTime d) ;;;
  blockchain_WriteBytes (SMetadata d).

Definition SampleTxData_bytes (d : SampleTxData) : list byte :=
  W (snd (SampleTxData_writeTo d (NewWriter []))).

Definition SampleTxData_readFrom : State Reader SampleTxData :=
  v <- blockchain_ReadUint32 ;;
  l <- blockchain_ReadUint64 ;;
  m <- blockchain_ReadBytes ;;
  ret (mkSampleTxData v l m).

(** A stand-in for the digest function in concrete runs: the first 32
    bytes of the zero-padded input. *)
Definition sample_hash256 (bs : list byte) : Hash :=
  firstn 32 (bs ++ make 32).

(* ================================================================== *)
(** ** Transactions and blocks *)

Section BlockCodec.

(** The digest function of package [chain/crypto/hash256]. *)
Variable hash256 : list byte -> Hash.

(** The transaction payload with its canonical encoding
    ([TxData.WriteTo]) and its decoder ([TxData.readFrom], which fills a
    zero payload from the latching reader). *)
Variable TxData : Type.
Variable TxData_bytes : TxData -> list byte.
Variable TxData_readFrom : State Reader TxData.

(** [BlockHeader.Hash]: the digest of the Full encoding. *)
Definition BlockHeader_Hash (bh : BlockHeader) : Hash :=
  hash256 (snd (BlockHeader_WriteTo bh [])).

(** [BlockHeader.HashForSig]: the digest of the ForSigning encoding. *)
Definition BlockHeader_HashForSig (bh : BlockHeader) : Hash :=
  hash256 (snd (BlockHeader_WriteForSigTo bh [])).

(** A transaction: the payload and its cached identity. *)
Record Tx : Type := mkTx {
  Tx_TxData : TxData;
  Tx_Hash : Hash
}.

(** Modelled from the spec: [NewTx], which is not among the sources:
    the identity is the digest of the payload's canonical encoding,
    computed once at construction. *)
Definition NewTx (data : TxData) : Tx :=
  mkTx data (hash256 (TxData_bytes data)).

(** [tx.WriteTo(ew)]: the canonical encoding of the payload. *)
Definition Tx_WriteTo (tx : Tx) : State Writer unit :=
  Writer_Write (TxData_bytes (Tx_TxData tx)).

Record Block : Type := mkBlock {
  Header : BlockHeader;
  Transactions : list Tx
}.

(** The zero value of a block, a fresh receiver. *)
Definition zeroBlock : Block := mkBlock zeroBlockHeader [].

(** The loop of [Block.readFrom]: [n] payloads are read, each is wrapped
    by [NewTx] and appended to the transactions of the receiver. The list
    stands for a slice, whose length is an [int]: the loop is the code's
    as long as the receiver's transactions and [n] together stay within
    [maxInt], which the statements about counts read from the input
    assume. *)
Fixpoint readTxs (n : nat) (txs : list Tx) : State Reader (list Tx) :=
  match n with
  | O => ret txs
  | S n' =>
      data <- TxData_readFrom ;;
      readTxs n' (txs ++ [NewTx data])
  end.

(** [Block.readFrom]. *)
Definition Block_readFrom (b : Block) : State Reader Block :=
  h <- BlockHeader_readFrom (Header b) ;;
  n <- blockchain_ReadUvarint ;;
  txs <- readTxs (N.to_nat n) (Transactions b) ;;
  ret (mkBlock h txs).

(** The loop of [Block.writeTo] over the transactions. *)
Fixpoint writeTxs (txs : list Tx) : State Writer unit :=
  match txs with
  | [] => ret tt
  | tx :: txs' => Tx_WriteTo tx ;;; writeTxs txs'
  end.

(** [Block.writeTo]. *)
Definition Block_writeTo (b : Block) (forSigning : bool)
  : State Writer unit :=
  BlockHeader_writeTo (Header b) forSigning ;;;
  (if negb forSigning
   then
     blockchain_WriteUvarint
       (N.of_nat (length (Transactions b)) mod 2 ^ 64) ;;;
     writeTxs (Transactions b)
   else ret tt).

(** [b.writeTo(w, forSigning)] as called with a sink [w]. *)
Definition Block_writeTo_sink (b : Block) (forSigning : bool)
           (w : list byte) : (Z * option error) * list byte :=
  finish (snd (Block_writeTo b forSigning (NewWriter w))).

(** [Block.WriteTo]. *)
Definition Block_WriteTo (b : Block) (w : list byte)
  : (Z * option error) * list byte :=
  Block_writeTo_sink b false w.

(** [Block.Scan]: the receiver after the call and the error. *)
Definition Block_Scan (val : Value) (b : Block) : Block * option error :=
  match val with
  | VBytes buf =>
      let (b', r) := Block_readFrom b (NewReader buf) in
      (b', option_map ErrCodec (Err r))
  | _ => (b, Some ErrScanByteSlice)
  end.

(** [Block.Value]. *)
Definition Block_Value (b : Block) : Value * option error :=
  let '((_, err), buf) := Block_WriteTo b [] in
  match err with
  | Some e => (VNil, Some e)
  | None => (VBytes buf, None)
  end.

(** The Full encoding of a block as a byte string. *)
Definition Block_bytes (b : Block) : list byte :=
  snd (Block_WriteTo b []).

(** The range of a block's machine types; its transactions are built by
    [NewTx] from payloads that [valid] accepts. *)
Definition wf_Block (valid : TxData -> Prop) (b : Block) : Prop :=
  wf_BlockHeader (Header b) /\
  N.of_nat (length (Transactions b)) < 2 ^ 64 /\
  Forall (fun tx => valid (Tx_TxData tx) /\ tx = NewTx (Tx_TxData tx))
         (Transactions b).

(** The layout of a transaction list and of a block. *)
Definition txs_layout (txs : list Tx) : list byte :=
  concat (map (fun tx => TxData_bytes (Tx_TxData tx)) txs).

Definition block_layout (b : Block) (forSigning : bool) : list byte :=
  header_layout (Header b) forSigning ++
  (if forSigning then []
   else uvarint (N.of_nat (length (Transactions b))) ++
        txs_layout (Transactions b)).

End BlockCodec.

Arguments mkTx {TxData} _ _.
Arguments mkBlock {TxData} _ _.
Arguments Header {TxData} _.
Arguments Transactions {TxData} _.
Arguments Tx_TxData {TxData} _.
Arguments Tx_Hash {TxData} _.

(* ================================================================== *)
(** ** Sample values *)

(** The genesis header of the specification's scenario. *)
Definition sample_header : BlockHeader :=
  mkBlockHeader 1 0 zeroHash (make 64) 1000 [] [xaa].

Definition sample_data1 : SampleTxData := mkSampleTxData 1 7 [x01; x02].

Definition sample_data2 : SampleTxData := mkSampleTxData 1 9 [].

Definition SampleNewTx : SampleTxData -> Tx SampleTxData :=
  NewTx sample_hash256 SampleTxData_bytes.

Definition SampleBlock_Scan
  : Value -> Block SampleTxData -> Block SampleTxData * option error :=
  Block_Scan sample_hash256 SampleTxData_bytes SampleTxData_readFrom.

(** A block of two transactions. *)
Definition sample_block : Block SampleTxData :=
  mkBlock sample_header [SampleNewTx sample_data1; SampleNewTx sample_data2].

(** A receiver that already holds a transaction. *)
Definition sample_receiver : Block SampleTxData :=
  mkBlock zeroBlockHeader [SampleNewTx sample_data2].

(** The encoding of [sample_block] cut after its first transaction: the
    header, the count 2 and one payload. *)
Definition sample_short_input : list byte :=
  BlockHeader_bytes sample_header ++
  uvarint 2 ++
  SampleTxData_bytes sample_data1.

(** A commitment of 70 distinct-looking bytes. *)
Definition sample_commitment : list byte :=
  repeat x07 30 ++ repeat x08 40.

(* ================================================================== *)
(** * Properties *)

(** ** State passing *)

Lemma bind_run {S A B : Type} (m : State S A) (k : A -> State S B) s a s' :
  m s = (a, s') -> bind m k s = k a s'.
Proof. intros H. unfold bind. rewrite H. reflexivity. Qed.

(** ** Writers *)

Lemma emits_Write p : emits (Writer_Write p) p.
Proof. intros w Hw. unfold Writer_Write. rewrite Hw. reflexivity. Qed.

Lemma emits_ret : emits (ret tt) [].
Proof.
  intros [b n e] Hw. simpl in Hw. subst e. unfold ret. simpl.
  rewrite app_nil_r, Z.add_0_r. reflexivity.
Qed.

Lemma emits_bind m1 m2 b1 b2 :
  emits m1 b1 -> emits m2 b2 -> emits (m1 ;;; m2) (b1 ++ b2).
Proof.
  intros H1 H2 w Hw.
  unfold bind. rewrite (H1 w Hw).
  rewrite H2 by reflexivity. simpl.
  rewrite app_assoc, length_app, Nat2Z.inj_add, Z.add_assoc.
  reflexivity.
Qed.

Lemma emits_W m bs w :
  emits m bs -> W (snd (m (NewWriter w))) = w ++ bs.
Proof. intros H. rewrite H by reflexivity. reflexivity. Qed.

Lemma emits_WErr m bs w :
  emits m bs -> WErr (snd (m (NewWriter w))) = None.
Proof. intros H. rewrite H by reflexivity. reflexivity. Qed.

Lemma emits_WriteUint32 v : emits (blockchain_WriteUint32 v) (le_bytes 4 v).
Proof. apply emits_Write. Qed.

Lemma emits_WriteUint64 v : emits (blockchain_WriteUint64 v) (le_bytes 8 v).
Proof. apply emits_Write. Qed.

Lemma emits_WriteUvarint x : emits (blockchain_WriteUvarint x) (uvarint x).
Proof. apply emits_Write. Qed.

Lemma emits_WriteBytes data :
  emits (blockchain_WriteBytes data) (varstring data).
Proof.
  unfold blockchain_WriteBytes, varstring.
  apply emits_bind; [apply emits_WriteUvarint | apply emits_Write].
Qed.

Create HintDb emit.

#[local] Hint Resolve emits_Write emits_ret emits_bind emits_WriteUint32
  emits_WriteUint64 emits_WriteUvarint emits_WriteBytes : emit.

Lemma emits_BlockHeader_writeTo bh forSigning :
  emits (BlockHeader_writeTo bh forSigning) (header_layout bh forSigning).
Proof.
  unfold BlockHeader_writeTo, header_layout.
  repeat (apply emits_bind; auto with emit).
  destruct forSigning; auto with emit.
Qed.

(** ** Bytes and fixed-width integers *)

Lemma to_N_byte_of_N x : Byte.to_N (byte_of_N x) = x mod 256.
Proof.
  unfold byte_of_N.
  destruct (Byte.of_N (x mod 256)) as [b|] eqn:E.
  - now apply Byte.to_of_N.
  - apply Byte.of_N_None_iff in E.
    pose proof (N.mod_upper_bound x 256). lia.
Qed.

Lemma byte_of_N_to_N b : byte_of_N (Byte.to_N b) = b.
Proof.
  unfold byte_of_N.
  rewrite N.mod_small by (pose proof (Byte.to_N_bounded b); lia).
  now rewrite Byte.of_to_N.
Qed.

Lemma length_le_bytes k x : length (le_bytes k x) = k.
Proof. revert x. induction k; simpl; intros; [reflexivity | now rewrite IHk]. Qed.

Lemma le_value_le_bytes k x :
  le_value (le_bytes k x) = x mod 256 ^ N.of_nat k.
Proof.
  revert x. induction k as [|k IH]; intros x.
  - simpl. now rewrite N.mod_1_r.
  - cbn [le_bytes le_value]. rewrite IH, to_N_byte_of_N.
    rewrite Nat2N.inj_succ, N.pow_succ_r'.
    rewrite N.Div0.mod_mul_r. lia.
Qed.

Lemma length_make n : length (make n) = n.
Proof. apply repeat_length. Qed.

Lemma length_copy dst src : length (copy dst src) = length dst.
Proof.
  unfold copy. rewrite length_app, length_firstn, length_skipn. lia.
Qed.

(** ** Readers *)

Lemma parses_ret {A : Type} (a : A) : parses (ret a) [] a.
Proof. intros rest. reflexivity. Qed.

Lemma parses_bind {A B : Type} (m : State Reader A) (k : A -> State Reader B)
      b1 b2 a c :
  parses m b1 a -> parses (k a) b2 c -> parses (bind m k) (b1 ++ b2) c.
Proof.
  intros H1 H2 rest. rewrite <- app_assoc.
  unfold bind. rewrite (H1 (b2 ++ rest)). apply H2.
Qed.

Lemma parses_ReadFull buf bs :
  length buf = length bs -> parses (ReadFull buf) bs bs.
Proof.
  intros Hl rest. unfold ReadFull. cbn [Err R].
  rewrite Hl.
  replace (length bs <=? length (bs ++ rest))%nat with true
    by (symmetry; apply Nat.leb_le; rewrite length_app; lia).
  rewrite firstn_app, Nat.sub_diag, firstn_all, firstn_O, app_nil_r.
  rewrite skipn_app, Nat.sub_diag, skipn_all. reflexivity.
Qed.

Lemma parses_ReadUint32 v :
  v < 2 ^ 32 -> parses blockchain_ReadUint32 (le_bytes 4 v) v.
Proof.
  intros Hv. unfold blockchain_ReadUint32.
  rewrite <- (app_nil_r (le_bytes 4 v)).
  eapply parses_bind.
  - apply parses_ReadFull. now rewrite length_make, length_le_bytes.
  - rewrite le_value_le_bytes, N.mod_small by (exact Hv).
    apply parses_ret.
Qed.

Lemma parses_ReadUint64 v :
  v < 2 ^ 64 -> parses blockchain_ReadUint64 (le_bytes 8 v) v.
Proof.
  intros Hv. unfold blockchain_ReadUint64.
  rewrite <- (app_nil_r (le_bytes 8 v)).
  eapply parses_bind.
  - apply parses_ReadFull. now rewrite length_make, length_le_bytes.
  - rewrite le_value_le_bytes, N.mod_small by (exact Hv).
    apply parses_ret.
Qed.

(** ** Variable-length integers *)

Lemma uvarint_loop_S f s x :
  uvarint_loop (S f) s x =
  (ob <- ReadByte ;;
   match ob with
   | None => ret 0
   | Some b =>
       let v := Byte.to_N b in
       if v <? 128 then
         if (Nat.eqb f 0 && (1 <? v)) || ((v =? 0) && (0 <? s))
         then Reader_fail MalformedValue ;;; ret 0
         else ret (x + v * 2 ^ s)
       else uvarint_loop f (s + 7) (x + (v - 128) * 2 ^ s)
   end).
Proof. reflexivity. Qed.

Lemma ReadByte_cons b bs :
  ReadByte (mkReader (b :: bs) None) = (Some b, mkReader bs None).
Proof. reflexivity. Qed.

(** The last byte of an encoding: below 128, at most 1 in the tenth
    position, and not a zero after a continuation byte. *)
Lemma uvarint_loop_last f s acc x rest :
  x < 128 ->
  (f = O -> x < 2) ->
  (0 < s -> 0 < x) ->
  uvarint_loop (S f) s acc (mkReader (byte_of_N x :: rest) None)
  = (acc + x * 2 ^ s, mkReader rest None).
Proof.
  intros Hx Hf Hs.
  rewrite uvarint_loop_S. unfold bind. rewrite ReadByte_cons.
  cbv zeta. rewrite to_N_byte_of_N, N.mod_small by lia.
  replace (x <? 128) with true by (symmetry; apply N.ltb_lt; lia).
  assert (E : (Nat.eqb f 0 && (1 <? x)) || ((x =? 0) && (0 <? s)) = false).
  { apply orb_false_iff. split; apply andb_false_iff.
    - destruct f as [|f]; [right | now left].
      apply N.ltb_ge. specialize (Hf eq_refl). lia.
    - destruct (N.eq_dec x 0) as [->|Hne].
      + right. apply N.ltb_ge.
        destruct (N.eq_dec s 0) as [->|Hs0]; [lia|].
        assert (0 < 0) by (apply Hs; lia). lia.
      + left. now apply N.eqb_neq. }
  rewrite E. reflexivity.
Qed.

Lemma uvarint_loop_bytes f :
  forall x s acc rest,
    x < 2 ^ (7 * N.of_nat f + 1) ->
    (0 < s -> 0 < x) ->
    uvarint_loop (S f) s acc (mkReader (uvarint_bytes f x ++ rest) None)
    = (acc + x * 2 ^ s, mkReader rest None).
Proof.
  induction f as [|f IH]; intros x s acc rest Hx Hs.
  - cbn [uvarint_bytes app]. change (7 * N.of_nat 0 + 1) with 1 in Hx.
    apply uvarint_loop_last; [ | | assumption].
    + change (2 ^ 1) with 2 in Hx. lia.
    + intros _. exact Hx.
  - cbn [uvarint_bytes].
    destruct (x <? 128) eqn:E.
    + apply N.ltb_lt in E. cbn [app].
      apply uvarint_loop_last; [assumption | discriminate | assumption].
    + apply N.ltb_ge in E. cbn [app].
      rewrite uvarint_loop_S. unfold bind at 1. rewrite ReadByte_cons.
      cbv zeta. rewrite to_N_byte_of_N.
      pose proof (N.mod_upper_bound x 128 ltac:(lia)) as Hm.
      assert (Hq : x mod 128 + 128 < 256) by (clear - Hm; lia).
      rewrite (N.mod_small _ _ Hq).
      assert (Hge : (x mod 128 + 128 <? 128) = false)
        by (apply N.ltb_ge, N.le_add_l).
      rewrite Hge.
      rewrite IH.
      * f_equal.
        rewrite N.add_sub, N.pow_add_r. change (2 ^ 7) with 128.
        pose proof (N.div_mod x 128 ltac:(lia)) as Hd.
        clear - Hd.
        generalize dependent (x mod 128). generalize dependent (x / 128).
        intros q r ->. lia.
      * apply N.Div0.div_lt_upper_bound.
        replace (7 * N.of_nat (S f) + 1) with (7 + (7 * N.of_nat f + 1))
          in Hx by lia.
        rewrite N.pow_add_r in Hx. exact Hx.
      * intros _. apply N.div_str_pos. lia.
Qed.

Lemma parses_ReadUvarint x :
  x < 2 ^ 64 -> parses blockchain_ReadUvarint (uvarint x) x.
Proof.
  intros Hx rest. unfold blockchain_ReadUvarint, uvarint.
  rewrite N.mod_small by exact Hx.
  change 10%nat with (S 9).
  rewrite uvarint_loop_bytes.
  - simpl. f_equal. lia.
  - exact Hx.
  - lia.
Qed.

Lemma parses_ReadBytes data :
  N.of_nat (length data) < 2 ^ 64 ->
  parses blockchain_ReadBytes (varstring data) data.
Proof.
  intros Hl. unfold blockchain_ReadBytes, varstring.
  eapply parses_bind.
  - apply parses_ReadUvarint. unfold len64. apply N.mod_upper_bound. lia.
  - apply parses_ReadFull.
    unfold len64. rewrite N.mod_small by exact Hl.
    now rewrite Nat2N.id, length_make.
Qed.

(** ** Headers *)

Lemma parses_BlockHeader_readFrom recv bh :
  wf_Hash (PreviousBlockHash recv) ->
  wf_BlockHeader bh ->
  parses (BlockHeader_readFrom recv) (header_layout bh false) bh.
Proof.
  intros Hr (Hv & Hh & Hp & Hc & Ht & Hs & Ho).
  unfold BlockHeader_readFrom, header_layout.
  eapply parses_bind; [now apply parses_ReadUint32|].
  eapply parses_bind; [now apply parses_ReadUint64|].
  eapply parses_bind;
    [apply parses_ReadFull; unfold wf_Hash in *; congruence|].
  eapply parses_bind; [now apply parses_ReadBytes|].
  eapply parses_bind; [now apply parses_ReadUint64|].
  eapply parses_bind; [now apply parses_ReadBytes|].
  rewrite <- (app_nil_r (varstring (OutputScript bh))).
  eapply parses_bind; [now apply parses_ReadBytes|].
  destruct bh. apply parses_ret.
Qed.

Lemma BlockHeader_bytes_layout bh :
  BlockHeader_bytes bh = header_layout bh false.
Proof.
  unfold BlockHeader_bytes, BlockHeader_WriteTo, finish. cbn [snd].
  now rewrite (emits_W [] (emits_BlockHeader_writeTo bh false)).
Qed.

Lemma BlockHeader_sig_bytes_layout bh :
  BlockHeader_sig_bytes bh = header_layout bh true.
Proof.
  unfold BlockHeader_sig_bytes, BlockHeader_WriteForSigTo, finish. cbn [snd].
  now rewrite (emits_W [] (emits_BlockHeader_writeTo bh true)).
Qed.

(** ** Slices *)

Lemma skipn_repeat {A : Type} (a : A) n m :
  skipn n (repeat a m) = repeat a (m - n).
Proof.
  revert m. induction n as [|n IH]; intros m.
  - now rewrite Nat.sub_0_r.
  - destruct m as [|m]; [reflexivity|]. simpl. apply IH.
Qed.

Lemma nth_error_make n i :
  (i < n)%nat -> nth_error (make n) i = Some x00.
Proof. intros H. unfold make. now apply nth_error_repeat. Qed.

Lemma nth_error_copy dst src i :
  nth_error (copy dst src) i =
  if (i <? Nat.min (length dst) (length src))%nat
  then nth_error src i else nth_error dst i.
Proof.
  unfold copy.
  destruct (i <? Nat.min (length dst) (length src))%nat eqn:E.
  - apply Nat.ltb_lt in E.
    rewrite nth_error_app1 by (rewrite length_firstn; exact E).
    rewrite nth_error_firstn.
    replace (i <? length dst)%nat with true
      by (symmetry; apply Nat.ltb_lt; lia).
    reflexivity.
  - apply Nat.ltb_ge in E.
    rewrite nth_error_app2 by (rewrite length_firstn; exact E).
    rewrite length_firstn, nth_error_skipn.
    destruct (Nat.le_ge_cases (length src) (length dst)) as [H|H].
    + f_equal. lia.
    + transitivity (@None byte);
        [|symmetry]; apply nth_error_None; lia.
Qed.

Lemma copy_exact dst src :
  length src = length dst -> copy dst src = src.
Proof.
  intros H. unfold copy.
  rewrite <- H, firstn_all, H, skipn_all. apply app_nil_r.
Qed.

(** ** Commitment accessors *)

Lemma length_SetTxRoot d bh :
  length (Commitment (BlockHeader_SetTxRoot d bh))
  = Nat.max 32 (length (Commitment bh)).
Proof.
  unfold BlockHeader_SetTxRoot. cbn [Commitment set_Commitment].
  rewrite length_app, length_copy, length_firstn, length_skipn.
  destruct (length (Commitment bh) <? 32)%nat eqn:E.
  - apply Nat.ltb_lt in E. rewrite length_make. lia.
  - apply Nat.ltb_ge in E. lia.
Qed.

Lemma length_SetStateRoot d bh :
  length (Commitment (BlockHeader_SetStateRoot d bh))
  = Nat.max 64 (length (Commitment bh)).
Proof.
  unfold BlockHeader_SetStateRoot. cbn [Commitment set_Commitment].
  rewrite !length_app, length_copy, !length_firstn, !length_skipn.
  destruct (length (Commitment bh) <? 64)%nat eqn:E.
  - apply Nat.ltb_lt in E. rewrite length_copy, length_make. lia.
  - apply Nat.ltb_ge in E. lia.
Qed.

Lemma SetTxRoot_beyond d bh i :
  (32 <= i)%nat ->
  nth_error (Commitment (BlockHeader_SetTxRoot d bh)) i
  = nth_error (Commitment bh) i.
Proof.
  intros Hi. unfold BlockHeader_SetTxRoot. cbn [Commitment set_Commitment].
  destruct (length (Commitment bh) <? 32)%nat eqn:E.
  - apply Nat.ltb_lt in E.
    transitivity (@None byte); [|symmetry]; apply nth_error_None; [|lia].
    rewrite length_app, length_copy, length_firstn, length_skipn,
      length_make. lia.
  - apply Nat.ltb_ge in E.
    rewrite nth_error_app2
      by (rewrite length_copy, length_firstn; lia).
    rewrite length_copy, length_firstn, nth_error_skipn.
    f_equal. lia.
Qed.

Lemma SetStateRoot_grown bh i :
  nth_error
    (if (length (Commitment bh) <? 64)%nat
     then copy (make 64) (Commitment bh) else Commitment bh) i
  = if (i <? length (Commitment bh))%nat then nth_error (Commitment bh) i
    else if (i <? 64)%nat then Some x00 else None.
Proof.
  destruct (length (Commitment bh) <? 64)%nat eqn:E.
  - apply Nat.ltb_lt in E.
    rewrite nth_error_copy, length_make.
    replace (Nat.min 64 (length (Commitment bh)))
      with (length (Commitment bh)) by lia.
    destruct (i <? length (Commitment bh))%nat; [reflexivity|].
    destruct (i <? 64)%nat eqn:E2.
    + apply Nat.ltb_lt in E2. now apply nth_error_make.
    + apply Nat.ltb_ge in E2. apply nth_error_None.
      now rewrite length_make.
  - apply Nat.ltb_ge in E.
    destruct (i <? length (Commitment bh))%nat eqn:E1; [reflexivity|].
    apply Nat.ltb_ge in E1.
    replace (i <? 64)%nat with false by (symmetry; apply Nat.ltb_ge; lia).
    now apply nth_error_None.
Qed.

Lemma SetStateRoot_outside d bh i :
  (i < 32 \/ 64 <= i)%nat ->
  nth_error (Commitment (BlockHeader_SetStateRoot d bh)) i
  = if (i <? length (Commitment bh))%nat then nth_error (Commitment bh) i
    else if (i <? 64)%nat then Some x00 else None.
Proof.
  intros Hi. rewrite <- SetStateRoot_grown.
  unfold BlockHeader_SetStateRoot. cbn [Commitment set_Commitment].
  set (c := if (length (Commitment bh) <? 64)%nat
            then copy (make 64) (Commitment bh) else Commitment bh).
  assert (Hc : (64 <= length c)%nat).
  { subst c. destruct (length (Commitment bh) <? 64)%nat eqn:E.
    - rewrite length_copy, length_make. lia.
    - now apply Nat.ltb_ge in E. }
  destruct Hi as [Hi|Hi].
  - rewrite nth_error_app1 by (rewrite length_firstn; lia).
    rewrite nth_error_firstn.
    replace (i <? 32)%nat with true by (symmetry; apply Nat.ltb_lt; lia).
    reflexivity.
  - rewrite nth_error_app2 by (rewrite length_firstn; lia).
    rewrite nth_error_app2
      by (rewrite length_copy, !length_firstn, length_skipn; lia).
    rewrite length_copy, !length_firstn, length_skipn, nth_error_skipn.
    f_equal. lia.
Qed.

Lemma TxRoot_spec bh :
  BlockHeader_TxRoot bh =
  if (32 <=? length (Commitment bh))%nat
  then firstn 32 (Commitment bh) else zeroHash.
Proof.
  unfold BlockHeader_TxRoot.
  destruct (32 <=? length (Commitment bh))%nat eqn:E; [|reflexivity].
  apply Nat.leb_le in E. apply copy_exact.
  unfold zeroHash. rewrite length_make, length_firstn. lia.
Qed.

Lemma StateRoot_spec bh :
  BlockHeader_StateRoot bh =
  if (64 <=? length (Commitment bh))%nat
  then firstn 32 (skipn 32 (Commitment bh)) else zeroHash.
Proof.
  unfold BlockHeader_StateRoot.
  destruct (64 <=? length (Commitment bh))%nat eqn:E; [|reflexivity].
  apply Nat.leb_le in E. apply copy_exact.
  unfold zeroHash. rewrite length_make, length_firstn, length_skipn. lia.
Qed.

Lemma SetTxRoot_slot d bh :
  wf_Hash d ->
  firstn 32 (Commitment (BlockHeader_SetTxRoot d bh)) = d.
Proof.
  intros Hd. unfold BlockHeader_SetTxRoot. cbn [Commitment set_Commitment].
  set (c := if (length (Commitment bh) <? 32)%nat
            then make 32 else Commitment bh).
  assert (Hc : (32 <= length c)%nat).
  { subst c. destruct (length (Commitment bh) <? 32)%nat eqn:E.
    - rewrite length_make. lia.
    - now apply Nat.ltb_ge in E. }
  rewrite copy_exact by (rewrite length_firstn; unfold wf_Hash in Hd; lia).
  rewrite firstn_app.
  unfold wf_Hash in Hd. rewrite Hd, Nat.sub_diag, firstn_O, app_nil_r.
  rewrite <- Hd. apply firstn_all.
Qed.

Lemma SetStateRoot_slot d bh :
  wf_Hash d ->
  firstn 32 (skipn 32 (Commitment (BlockHeader_SetStateRoot d bh))) = d.
Proof.
  intros Hd. unfold BlockHeader_SetStateRoot.
  cbn [Commitment set_Commitment].
  set (c := if (length (Commitment bh) <? 64)%nat
            then copy (make 64) (Commitment bh) else Commitment bh).
  assert (Hc : (64 <= length c)%nat).
  { subst c. destruct (length (Commitment bh) <? 64)%nat eqn:E.
    - rewrite length_copy, length_make. lia.
    - now apply Nat.ltb_ge in E. }
  unfold wf_Hash in Hd.
  rewrite copy_exact
    by (rewrite length_firstn, length_skipn; lia).
  rewrite skipn_app, length_firstn.
  replace (Nat.min 32 (length c)) with 32%nat by lia.
  rewrite skipn_all2 by (rewrite length_firstn; lia).
  cbn [app Nat.sub skipn].
  rewrite firstn_app, Hd, Nat.sub_diag, firstn_O, app_nil_r.
  rewrite <- Hd. apply firstn_all.
Qed.

Lemma SetStateRoot_keeps_TxRoot d bh :
  (32 <= length (Commitment bh))%nat ->
  firstn 32 (Commitment (BlockHeader_SetStateRoot d bh))
  = firstn 32 (Commitment bh).
Proof.
  intros Hl. unfold BlockHeader_SetStateRoot.
  cbn [Commitment set_Commitment].
  set (c := if (length (Commitment bh) <? 64)%nat
            then copy (make 64) (Commitment bh) else Commitment bh).
  assert (Hc : (64 <= length c)%nat /\
               firstn 32 c = firstn 32 (Commitment bh)).
  { subst c. destruct (length (Commitment bh) <? 64)%nat eqn:E.
    - apply Nat.ltb_lt in E. rewrite length_copy, length_make.
      split; [lia|]. unfold copy. rewrite length_make.
      rewrite firstn_app, length_firstn, firstn_firstn.
      replace (32 - Nat.min 64 (length (Commitment bh)))%nat with O by lia.
      rewrite firstn_O, app_nil_r. f_equal.
    - apply Nat.ltb_ge in E. split; [exact E | reflexivity]. }
  destruct Hc as [Hc <-].
  rewrite firstn_app, length_firstn.
  replace (32 - Nat.min 32 (length c))%nat with O by lia.
  rewrite firstn_O, app_nil_r. apply firstn_firstn.
Qed.

(** C4. [SetTxRoot] and [SetStateRoot] never shrink the commitment and
    never alter a byte outside the slot they write: [SetTxRoot] keeps
    every byte at offset 32 and beyond; [SetStateRoot] keeps the bytes
    present below offset 32 and every byte at offset 64 and beyond, and
    fills a gap between a short buffer and offset 32 with zeros. *)
Theorem commitment_setters_frame (bh : BlockHeader) (d : Hash) :
  let old := Commitment bh in
  let tx := Commitment (BlockHeader_SetTxRoot d bh) in
  let st := Commitment (BlockHeader_SetStateRoot d bh) in
  (length old <= length tx)%nat /\
  (forall i, (32 <= i)%nat -> nth_error tx i = nth_error old i) /\
  (length old <= length st)%nat /\
  (forall i, (i < 32)%nat -> (i < length old)%nat ->
             nth_error st i = nth_error old i) /\
  (forall i, (length old <= i < 32)%nat -> nth_error st i = Some x00) /\
  (forall i, (64 <= i)%nat -> nth_error st i = nth_error old i).
Proof.
  cbv zeta. repeat split.
  - rewrite length_SetTxRoot. lia.
  - intros i Hi. now apply SetTxRoot_beyond.
  - rewrite length_SetStateRoot. lia.
  - intros i Hi Hl. rewrite SetStateRoot_outside by lia.
    apply Nat.ltb_lt in Hl. now rewrite Hl.
  - intros i [Hl Hi]. rewrite SetStateRoot_outside by lia.
    replace (i <? length (Commitment bh))%nat with false
      by (symmetry; apply Nat.ltb_ge; lia).
    replace (i <? 64)%nat with true by (symmetry; apply Nat.ltb_lt; lia).
    reflexivity.
  - intros i Hi. rewrite SetStateRoot_outside by lia.
    destruct (i <? length (Commitment bh))%nat eqn:E; [reflexivity|].
    apply Nat.ltb_ge in E.
    replace (i <? 64)%nat with false by (symmetry; apply Nat.ltb_ge; lia).
    symmetry. now apply nth_error_None.
Qed.

(** C5. [TxRoot] is bytes [0,32) of the commitment, or the zero digest
    when the commitment is shorter than 32 bytes; [StateRoot] is bytes
    [32,64), or the zero digest when it is shorter than 64 bytes. From an
    empty commitment, [SetTxRoot D1] then [SetStateRoot D2] gives
    [TxRoot = D1], [StateRoot = D2] and a commitment of 64 bytes. *)
Theorem commitment_roots (bh : BlockHeader) (D1 D2 : Hash) :
  (BlockHeader_TxRoot bh =
   if (length (Commitment bh) <? 32)%nat
   then zeroHash else firstn 32 (Commitment bh)) /\
  (BlockHeader_StateRoot bh =
   if (length (Commitment bh) <? 64)%nat
   then zeroHash else firstn 32 (skipn 32 (Commitment bh))) /\
  (Commitment bh = [] -> wf_Hash D1 -> wf_Hash D2 ->
   let bh' := BlockHeader_SetStateRoot D2 (BlockHeader_SetTxRoot D1 bh) in
   BlockHeader_TxRoot bh' = D1 /\
   BlockHeader_StateRoot bh' = D2 /\
   length (Commitment bh') = 64%nat).
Proof.
  split; [|split].
  - rewrite TxRoot_spec, Nat.ltb_antisym.
    now destruct (32 <=? length (Commitment bh))%nat.
  - rewrite StateRoot_spec, Nat.ltb_antisym.
    now destruct (64 <=? length (Commitment bh))%nat.
  - intros He H1 H2. cbv zeta.
    assert (L1 : length (Commitment (BlockHeader_SetTxRoot D1 bh)) = 32%nat)
      by (rewrite length_SetTxRoot, He; reflexivity).
    assert (L2 : length (Commitment (BlockHeader_SetStateRoot D2
                   (BlockHeader_SetTxRoot D1 bh))) = 64%nat)
      by (rewrite length_SetStateRoot, L1; reflexivity).
    rewrite TxRoot_spec, StateRoot_spec, L2. cbn [Nat.leb].
    repeat split.
    + rewrite SetStateRoot_keeps_TxRoot by lia. now apply SetTxRoot_slot.
    + now apply SetStateRoot_slot.
Qed.

(** ** Calendar time *)

Lemma int64_small x :
  (Z.of_N x < 2 ^ 63)%Z -> int64 x = Z.of_N x.
Proof.
  intros H. unfold int64.
  rewrite Z.mod_small by lia.
  now apply Z.ltb_lt in H; rewrite H.
Qed.

Lemma wrap64_small z :
  (0 <= z < 2 ^ 63)%Z -> wrap64 z = z.
Proof.
  intros H. unfold wrap64.
  rewrite Z.mod_small by lia.
  destruct H as [_ H]. now apply Z.ltb_lt in H; rewrite H.
Qed.

(** C8, as amended. For a timestamp below [2^63 - 62135596800], [Time]
    is the instant exactly [Timestamp] whole seconds after the Unix
    epoch, with zero sub-second part, presented in UTC. *)
Theorem Time_of_Timestamp (bh : BlockHeader) :
  (Z.of_N (Timestamp bh) < 2 ^ 63 - unixToInternal)%Z ->
  BlockHeader_Time bh
  = mkTime (Z.of_N (Timestamp bh) + unixToInternal) 0 UTC /\
  Time_epoch_seconds (BlockHeader_Time bh) = Z.of_N (Timestamp bh).
Proof.
  intros H. unfold unixToInternal in H.
  assert (E : BlockHeader_Time bh
              = mkTime (Z.of_N (Timestamp bh) + unixToInternal) 0 UTC).
  { unfold BlockHeader_Time, time_Unix, Time_UTC. cbn [sec nsec orb Z.ltb
      Z.geb Z.compare].
    change (0 >=? 10 ^ 9)%Z with false. cbv iota.
    rewrite int64_small by lia.
    rewrite wrap64_small by (unfold unixToInternal; lia).
    reflexivity. }
  split; [exact E|]. rewrite E. unfold Time_epoch_seconds. cbn [sec]. lia.
Qed.

(** C8, witness of the amended claim at timestamp 1000. *)
Lemma Time_of_Timestamp_witness :
  BlockHeader_Time (mkBlockHeader 1 0 zeroHash (make 64) 1000 [] [xaa])
  = mkTime 62135597800 0 UTC /\
  Time_epoch_seconds
    (BlockHeader_Time (mkBlockHeader 1 0 zeroHash (make 64) 1000 [] [xaa]))
  = 1000%Z.
Proof.
  apply (Time_of_Timestamp
           (mkBlockHeader 1 0 zeroHash (make 64) 1000 [] [xaa])).
  vm_compute. reflexivity.
Defined.

(** C8, counterexample. The header with timestamp [2^63], an unsigned
    64-bit value, is well formed, and its [Time] is [2^63] seconds before
    the epoch, not after it. *)
Lemma Time_wraps_at_2_63 :
  wf_BlockHeader (mkBlockHeader 1 0 zeroHash [] (2 ^ 63) [] []) /\
  Time_epoch_seconds
    (BlockHeader_Time (mkBlockHeader 1 0 zeroHash [] (2 ^ 63) [] []))
  = (- 2 ^ 63)%Z /\
  Time_epoch_seconds
    (BlockHeader_Time (mkBlockHeader 1 0 zeroHash [] (2 ^ 63) [] []))
  <> Z.of_N (Timestamp (mkBlockHeader 1 0 zeroHash [] (2 ^ 63) [] [])).
Proof.
  split; [|split].
  - repeat split.
  - vm_compute. reflexivity.
  - vm_compute. discriminate.
Qed.

(** Just below [2^63] the conversion to [int64] is exact, and the
    addition of the epoch offset inside [time.Unix] wraps around. *)
Example Time_offset_wraps_below_2_63 :
  Time_epoch_seconds
    (BlockHeader_Time (mkBlockHeader 1 0 zeroHash [] (2 ^ 63 - 1) [] []))
  = (- 2 ^ 63 - 1)%Z.
Proof. vm_compute. reflexivity. Qed.

(** C9. Header decoding does not validate the commitment: a commitment
    of any length with a well-formed length prefix is accepted and stored
    verbatim, and the only errors of header decoding are those of
    truncated input and of a malformed length prefix. *)
Theorem readFrom_accepts_any_commitment :
  (forall recv bh c rest,
      wf_Hash (PreviousBlockHash recv) ->
      wf_BlockHeader bh ->
      N.of_nat (length c) < 2 ^ 64 ->
      BlockHeader_readFrom recv
        (NewReader (BlockHeader_bytes (set_Commitment c bh) ++ rest))
      = (set_Commitment c bh, NewReader rest)) /\
  (forall buf recv bh' e,
      BlockHeader_Scan (VBytes buf) recv = (bh', Some e) ->
      e = ErrCodec TruncatedInput \/ e = ErrCodec MalformedValue).
Proof.
  split.
  - intros recv bh c rest Hr (Hv & Hh & Hp & _ & Ht & Hs & Ho) Hc.
    rewrite BlockHeader_bytes_layout.
    apply parses_BlockHeader_readFrom; [exact Hr|].
    repeat split; assumption.
  - intros buf recv bh' e. unfold BlockHeader_Scan.
    destruct (BlockHeader_readFrom recv (NewReader buf)) as [x r].
    destruct (Err r) as [[|]|]; cbn [option_map]; intros H;
      inversion H; auto.
Qed.

(** ** Blocks *)

Section BlockCodecProperties.

Variable hash256 : list byte -> Hash.
Variable TxData : Type.
Variable TxData_bytes : TxData -> list byte.
Variable TxData_readFrom : State Reader TxData.

(** The payloads that the payload codec is specified for. *)
Variable valid : TxData -> Prop.

#[local] Abbreviation NewTx' := (NewTx hash256 TxData_bytes).
#[local] Abbreviation readTxs' :=
  (readTxs hash256 TxData_bytes TxData_readFrom).
#[local] Abbreviation Block_readFrom' :=
  (Block_readFrom hash256 TxData_bytes TxData_readFrom).
#[local] Abbreviation Block_Scan' :=
  (Block_Scan hash256 TxData_bytes TxData_readFrom).
#[local] Abbreviation Block_bytes' := (Block_bytes TxData_bytes).
#[local] Abbreviation txs_layout' := (txs_layout TxData_bytes).
#[local] Abbreviation wf_Block' := (wf_Block hash256 TxData_bytes valid).
#[local] Abbreviation wf_Tx' :=
  (fun tx => valid (Tx_TxData tx) /\ tx = NewTx' (Tx_TxData tx)).

(** The payload codec round-trips: decoding consumes exactly the
    canonical encoding of a valid payload and delivers that payload. *)
Hypothesis TxData_roundtrip :
  forall d, valid d -> parses TxData_readFrom (TxData_bytes d) d.

(** The payload decoder reads through the latching reader only: after an
    error it reads nothing. *)
Hypothesis TxData_latching : latching TxData_readFrom.

Lemma emits_writeTxs txs :
  emits (writeTxs TxData_bytes txs) (txs_layout' txs).
Proof.
  induction txs as [|tx txs IH]; cbn [writeTxs txs_layout map concat].
  - apply emits_ret.
  - apply emits_bind; [apply emits_Write | exact IH].
Qed.

Lemma emits_Block_writeTo b forSigning :
  emits (Block_writeTo TxData_bytes b forSigning)
        (block_layout TxData_bytes b forSigning).
Proof.
  unfold Block_writeTo, block_layout.
  apply emits_bind; [apply emits_BlockHeader_writeTo|].
  destruct forSigning; cbn [negb]; [apply emits_ret|].
  apply emits_bind; [|apply emits_writeTxs].
  unfold blockchain_WriteUvarint, uvarint.
  rewrite N.Div0.mod_mod. apply emits_Write.
Qed.

Lemma Block_bytes_layout b :
  Block_bytes' b = block_layout TxData_bytes b false.
Proof.
  unfold Block_bytes, Block_WriteTo, Block_writeTo_sink, finish.
  cbn [snd].
  now rewrite (emits_W [] (emits_Block_writeTo b false)).
Qed.

(** Reading [length txs + m] payloads from the layout of [txs] appends
    [txs] and goes on with the [m] remaining reads. *)
Lemma readTxs_prefix txs :
  Forall wf_Tx' txs ->
  forall m acc rest,
    readTxs' (length txs + m) acc (mkReader (txs_layout' txs ++ rest) None)
    = readTxs' m (acc ++ txs) (mkReader rest None).
Proof.
  induction 1 as [|tx txs [Hv Htx] _ IH]; intros m acc rest.
  - cbn. now rewrite app_nil_r.
  - cbn [length Nat.add readTxs txs_layout map concat].
    rewrite <- app_assoc. unfold bind at 1.
    rewrite (TxData_roundtrip Hv). rewrite <- Htx.
    change (concat (map (fun tx0 => TxData_bytes (Tx_TxData tx0)) txs))
      with (txs_layout' txs).
    rewrite IH. now rewrite <- app_assoc.
Qed.

Lemma parses_readTxs txs :
  Forall wf_Tx' txs ->
  forall acc,
    parses (readTxs' (length txs) acc) (txs_layout' txs) (acc ++ txs).
Proof.
  intros H acc rest.
  rewrite <- (Nat.add_0_r (length txs)).
  now rewrite readTxs_prefix.
Qed.

(** On a reader with a latched error the loop reads nothing and still
    appends one transaction for every remaining count. *)
Lemma readTxs_latched n :
  forall acc r e,
    Err r = Some e ->
    exists junk,
      length junk = n /\ readTxs' n acc r = (acc ++ junk, r).
Proof.
  induction n as [|n IH]; intros acc r e He.
  - exists []. split; [reflexivity|]. cbn. now rewrite app_nil_r.
  - cbn [readTxs]. unfold bind.
    pose proof (TxData_latching r He) as Hl.
    destruct (TxData_readFrom r) as [d r']. cbn [snd] in Hl. subst r'.
    destruct (IH (acc ++ [NewTx' d]) r e He) as (junk & Hlen & Hrun).
    exists (NewTx' d :: junk). split; [cbn; now rewrite Hlen|].
    rewrite Hrun. now rewrite <- app_assoc.
Qed.

Lemma parses_Block_readFrom recv b :
  wf_Hash (PreviousBlockHash (Header recv)) ->
  wf_Block' b ->
  parses (Block_readFrom' recv) (block_layout TxData_bytes b false)
         (mkBlock (Header b) (Transactions recv ++ Transactions b)).
Proof.
  intros Hr (Hh & Hn & Htxs).
  unfold Block_readFrom, block_layout.
  eapply parses_bind; [now apply parses_BlockHeader_readFrom|].
  eapply parses_bind; [now apply parses_ReadUvarint|].
  rewrite <- (app_nil_r (txs_layout' (Transactions b))).
  eapply parses_bind; [|apply parses_ret].
  rewrite Nat2N.id. now apply parses_readTxs.
Qed.

(** C1. Decoding the Full encoding of a header, or of a block, into a
    fresh receiver gives back the value field for field, the transaction
    list in order, and consumes the encoding without error. *)
Theorem decode_encode_roundtrip :
  (forall x,
      wf_BlockHeader x ->
      BlockHeader_readFrom zeroBlockHeader
        (NewReader (snd (BlockHeader_WriteTo x [])))
      = (x, NewReader [])) /\
  (forall b,
      wf_Block' b ->
      Block_readFrom' (zeroBlock TxData)
        (NewReader (snd (Block_WriteTo TxData_bytes b [])))
      = (b, NewReader [])).
Proof.
  split.
  - intros x Hx.
    change (snd (BlockHeader_WriteTo x [])) with (BlockHeader_bytes x).
    rewrite BlockHeader_bytes_layout.
    rewrite <- (app_nil_r (header_layout x false)).
    now apply parses_BlockHeader_readFrom.
  - intros b Hb.
    change (snd (Block_WriteTo TxData_bytes b [])) with (Block_bytes' b).
    rewrite Block_bytes_layout.
    rewrite <- (app_nil_r (block_layout TxData_bytes b false)).
    unfold NewReader.
    rewrite (@parses_Block_readFrom (zeroBlock TxData) b);
      [now destruct b | reflexivity | exact Hb].
Qed.

(** C10. Block decoding appends: after a successful decode the
    transactions that the receiver held stay in place and the decoded
    ones follow them, so the receiver ends with exactly the encoded list
    if and only if its list was empty. *)
Theorem Block_readFrom_appends recv b :
  wf_Hash (PreviousBlockHash (Header recv)) ->
  wf_Block' b ->
  Block_Scan' (VBytes (snd (Block_WriteTo TxData_bytes b []))) recv
  = (mkBlock (Header b) (Transactions recv ++ Transactions b), None) /\
  (Transactions recv ++ Transactions b = Transactions b
   <-> Transactions recv = []).
Proof.
  intros Hr Hb. split.
  - unfold Block_Scan.
    change (snd (Block_WriteTo TxData_bytes b [])) with (Block_bytes' b).
    rewrite Block_bytes_layout.
    rewrite <- (app_nil_r (block_layout TxData_bytes b false)).
    unfold NewReader. now rewrite (@parses_Block_readFrom recv b Hr Hb).
  - split.
    + intros H. apply (f_equal (@length _)) in H.
      rewrite length_app in H.
      destruct (Transactions recv); [reflexivity | cbn in H; lia].
    + now intros ->.
Qed.

(** A payload read that fails, followed by the remaining reads of the
    loop: the error of the failing read stays latched, and what the
    receiver held stays in front. *)
Lemma readTxs_failing m acc tail e :
  Err (snd (TxData_readFrom (NewReader tail))) = Some e ->
  exists extra r,
    Err r = Some e /\
    readTxs' (S m) acc (NewReader tail) = (acc ++ extra, r).
Proof.
  intros He. cbn [readTxs]. unfold bind.
  destruct (TxData_readFrom (NewReader tail)) as [d r0].
  cbn [snd] in He.
  destruct (readTxs_latched m (acc ++ [NewTx' d]) r0 He)
    as (junk & _ & Hrun).
  exists (NewTx' d :: junk), r0. split; [exact He|].
  rewrite Hrun. now rewrite <- app_assoc.
Qed.

(** C2, as amended. After a well-formed header, when the transaction
    count is short or malformed, or when a transaction payload is short
    or malformed (the announced count being within the range of a slice
    length), [Block.Scan] fails with the first error encountered, the
    one of the failing read. The receiver is updated in place and not
    restored: it holds the decoded header, and the transactions decoded
    before the error stay appended to the ones it held. *)
Theorem Block_Scan_count_or_payload_error recv h :
  wf_Hash (PreviousBlockHash (Header recv)) ->
  wf_BlockHeader h ->
  (forall tail e,
      Err (snd (blockchain_ReadUvarint (NewReader tail))) = Some e ->
      exists extra,
        Block_Scan' (VBytes (BlockHeader_bytes h ++ tail)) recv
        = (mkBlock h (Transactions recv ++ extra), Some (ErrCodec e))) /\
  (forall n txs tail e,
      N.of_nat (length (Transactions recv)) + n <= maxInt ->
      Forall wf_Tx' txs ->
      (length txs < N.to_nat n)%nat ->
      Err (snd (TxData_readFrom (NewReader tail))) = Some e ->
      exists extra,
        Block_Scan'
          (VBytes (BlockHeader_bytes h ++ uvarint n ++
                   txs_layout' txs ++ tail)) recv
        = (mkBlock h (Transactions recv ++ txs ++ extra),
           Some (ErrCodec e))).
Proof.
  intros Hr Hh.
  pose proof (@parses_BlockHeader_readFrom (Header recv) h Hr Hh) as PH.
  split.
  - intros tail e He.
    unfold Block_Scan, Block_readFrom, NewReader.
    rewrite BlockHeader_bytes_layout.
    unfold bind at 1. rewrite PH. unfold bind at 1.
    unfold NewReader in He.
    destruct (blockchain_ReadUvarint (mkReader tail None)) as [v r].
    cbn [snd] in He.
    destruct (readTxs_latched (N.to_nat v) (Transactions recv) r He)
      as (junk & _ & Hrun).
    exists junk. unfold bind. rewrite Hrun. unfold ret. now rewrite He.
  - intros n txs tail e Hn Hf Hk He.
    assert (Hn64 : n < 2 ^ 64) by (unfold maxInt in Hn; lia).
    destruct (readTxs_failing (N.to_nat n - length txs - 1)
                (Transactions recv ++ txs) tail He)
      as (extra & r & Hr' & Hrun).
    exists extra.
    unfold Block_Scan, Block_readFrom, NewReader.
    rewrite BlockHeader_bytes_layout.
    unfold bind at 1. rewrite PH.
    unfold bind at 1. rewrite (parses_ReadUvarint Hn64).
    replace (N.to_nat n)
      with (length txs + S (N.to_nat n - length txs - 1))%nat by lia.
    unfold bind. rewrite (readTxs_prefix Hf).
    unfold NewReader in Hrun. rewrite Hrun.
    unfold ret. rewrite Hr'. now rewrite <- app_assoc.
Qed.

(** C3. Two headers that agree on every field except possibly the
    signature script have the same [HashForSig]; the ForSigning encoding
    is the Full encoding with the signature script replaced by the empty
    string. *)
Theorem HashForSig_ignores_SignatureScript (a b : BlockHeader) :
  Version a = Version b ->
  Height a = Height b ->
  PreviousBlockHash a = PreviousBlockHash b ->
  Commitment a = Commitment b ->
  Timestamp a = Timestamp b ->
  OutputScript a = OutputScript b ->
  BlockHeader_HashForSig hash256 a = BlockHeader_HashForSig hash256 b /\
  snd (BlockHeader_WriteForSigTo a [])
  = snd (BlockHeader_WriteTo (set_SignatureScript [] a) []).
Proof.
  intros Hv Hh Hp Hc Ht Ho.
  assert (E : forall x, snd (BlockHeader_WriteForSigTo x [])
                        = header_layout x true)
    by (intros x; apply BlockHeader_sig_bytes_layout).
  split.
  - unfold BlockHeader_HashForSig. rewrite !E. f_equal.
    unfold header_layout. now rewrite Hv, Hh, Hp, Hc, Ht, Ho.
  - rewrite E.
    change (snd (BlockHeader_WriteTo (set_SignatureScript [] a) []))
      with (BlockHeader_bytes (set_SignatureScript [] a)).
    now rewrite BlockHeader_bytes_layout.
Qed.

(** C6. The ForSigning encoding of a block is the ForSigning encoding of
    its header and nothing else: neither the transaction count nor the
    transactions are written, so two blocks with the same header have the
    same ForSigning encoding whatever their transactions. *)
Theorem Block_writeTo_forSigning_is_header :
  (forall (b : Block TxData) w,
      Block_writeTo_sink TxData_bytes b true w
      = BlockHeader_WriteForSigTo (Header b) w) /\
  (forall h (txs1 txs2 : list (Tx TxData)) w,
      Block_writeTo_sink TxData_bytes (mkBlock h txs1) true w
      = Block_writeTo_sink TxData_bytes (mkBlock h txs2) true w).
Proof.
  assert (E : forall (b : Block TxData) w,
             Block_writeTo_sink TxData_bytes b true w
             = BlockHeader_WriteForSigTo (Header b) w).
  { intros b w.
    unfold Block_writeTo_sink, BlockHeader_WriteForSigTo, Block_writeTo.
    cbn [negb]. unfold bind at 1.
    destruct (BlockHeader_writeTo (Header b) true (NewWriter w)) as [u ew].
    reflexivity. }
  split; [exact E|].
  intros h txs1 txs2 w. now rewrite !E.
Qed.

(** C7. Handed a value that is not a byte slice, [BlockHeader.Scan] and
    [Block.Scan] return the error of [Scan] itself and leave the receiver
    as it was, without reading anything; handed a byte slice, they never
    return that error. *)
Theorem Scan_rejects_non_bytes :
  (forall val bh,
      is_bytes val = false ->
      BlockHeader_Scan val bh = (bh, Some ErrScanByteSlice)) /\
  (forall val (b : Block TxData),
      is_bytes val = false ->
      Block_Scan' val b = (b, Some ErrScanByteSlice)) /\
  (forall buf bh,
      snd (BlockHeader_Scan (VBytes buf) bh) <> Some ErrScanByteSlice) /\
  (forall buf (b : Block TxData),
      snd (Block_Scan' (VBytes buf) b) <> Some ErrScanByteSlice).
Proof.
  repeat split.
  - intros val bh H. destruct val; try reflexivity; discriminate.
  - intros val b H. destruct val; try reflexivity; discriminate.
  - intros buf bh. unfold BlockHeader_Scan.
    destruct (BlockHeader_readFrom bh (NewReader buf)) as [x r].
    cbn [snd]. destruct (Err r); discriminate.
  - intros buf b. unfold Block_Scan.
    destruct (Block_readFrom' b (NewReader buf)) as [x r].
    cbn [snd]. destruct (Err r); discriminate.
Qed.

End BlockCodecProperties.

(** ** Latching of the reader primitives *)

Lemma latching_ret {A : Type} (a : A) : latching (ret a).
Proof. intros r e _. reflexivity. Qed.

Lemma latching_bind {A B : Type} (m : State Reader A)
      (k : A -> State Reader B) :
  latching m -> (forall a, latching (k a)) -> latching (bind m k).
Proof.
  intros Hm Hk r e He. unfold bind.
  pose proof (Hm r e He) as H.
  destruct (m r) as [a r']. cbn [snd] in H. subst r'.
  now apply (Hk a r e).
Qed.

Lemma latching_ReadFull buf : latching (ReadFull buf).
Proof. intros r e He. unfold ReadFull. now rewrite He. Qed.

Lemma latching_ReadByte : latching ReadByte.
Proof. intros r e He. unfold ReadByte. now rewrite He. Qed.

Lemma latching_Reader_fail e0 : latching (Reader_fail e0).
Proof. intros r e He. unfold Reader_fail. now rewrite He. Qed.

Lemma latching_uvarint_loop f : forall s x, latching (uvarint_loop f s x).
Proof.
  induction f as [|f IH]; intros s x.
  - cbn [uvarint_loop]. apply latching_bind.
    + apply latching_Reader_fail.
    + intros _. apply latching_ret.
  - rewrite uvarint_loop_S. apply latching_bind.
    + apply latching_ReadByte.
    + intros [b|]; [|apply latching_ret]. cbv zeta.
      destruct (Byte.to_N b <? 128); [|apply IH].
      destruct ((Nat.eqb f 0 && (1 <? Byte.to_N b))
                || ((Byte.to_N b =? 0) && (0 <? s)));
        [|apply latching_ret].
      apply latching_bind; [apply latching_Reader_fail|].
      intros _. apply latching_ret.
Qed.

Lemma latching_ReadUvarint : latching blockchain_ReadUvarint.
Proof. apply latching_uvarint_loop. Qed.

Lemma latching_ReadUint32 : latching blockchain_ReadUint32.
Proof.
  apply latching_bind; [apply latching_ReadFull|].
  intros bs. apply latching_ret.
Qed.

Lemma latching_ReadUint64 : latching blockchain_ReadUint64.
Proof.
  apply latching_bind; [apply latching_ReadFull|].
  intros bs. apply latching_ret.
Qed.

Lemma latching_ReadBytes : latching blockchain_ReadBytes.
Proof.
  apply latching_bind; [apply latching_ReadUvarint|].
  intros n. apply latching_ReadFull.
Qed.

Lemma latching_BlockHeader_readFrom recv :
  latching (BlockHeader_readFrom recv).
Proof.
  unfold BlockHeader_readFrom.
  repeat first
    [ apply latching_ret
    | apply latching_bind;
      [ first [ apply latching_ReadUint32 | apply latching_ReadUint64
              | apply latching_ReadBytes | apply latching_ReadFull ]
      | intros ? ] ].
Qed.

(** ** The sample payload codec *)

Lemma SampleTxData_roundtrip d :
  SampleTxData_valid d ->
  parses SampleTxData_readFrom (SampleTxData_bytes d) d.
Proof.
  intros (Hv & Hl & Hm).
  assert (Hem : emits (SampleTxData_writeTo d)
                       (le_bytes 4 (SVersion d) ++ le_bytes 8 (SLockTime d)
                        ++ varstring (SMetadata d))).
  { unfold SampleTxData_writeTo.
    repeat (apply emits_bind; auto with emit). }
  unfold SampleTxData_bytes. rewrite (emits_W [] Hem). cbn [app].
  rewrite <- (app_nil_r (varstring (SMetadata d))).
  unfold SampleTxData_readFrom.
  eapply parses_bind; [now apply parses_ReadUint32|].
  eapply parses_bind; [now apply parses_ReadUint64|].
  eapply parses_bind; [now apply parses_ReadBytes|].
  destruct d. apply parses_ret.
Qed.

Lemma SampleTxData_latching : latching SampleTxData_readFrom.
Proof.
  unfold SampleTxData_readFrom.
  apply latching_bind; [apply latching_ReadUint32 | intros v].
  apply latching_bind; [apply latching_ReadUint64 | intros l].
  apply latching_bind; [apply latching_ReadBytes | intros m].
  apply latching_ret.
Qed.

Lemma wf_sample_header : wf_BlockHeader sample_header.
Proof. repeat split. Qed.

Lemma wf_sample_block :
  wf_Block sample_hash256 SampleTxData_bytes SampleTxData_valid sample_block.
Proof.
  split; [exact wf_sample_header|]. split; [reflexivity|].
  repeat constructor.
Qed.

(** ** Instances at the sample values *)

(** C1, witness: the genesis header and the sample block of two
    transactions decode from their Full encodings. *)
Lemma decode_encode_roundtrip_witness :
  BlockHeader_readFrom zeroBlockHeader
    (NewReader (snd (BlockHeader_WriteTo sample_header [])))
  = (sample_header, NewReader []) /\
  Block_readFrom sample_hash256 SampleTxData_bytes SampleTxData_readFrom
    (zeroBlock SampleTxData)
    (NewReader (snd (Block_WriteTo SampleTxData_bytes sample_block [])))
  = (sample_block, NewReader []).
Proof.
  destruct (decode_encode_roundtrip sample_hash256 SampleTxData_bytes
              SampleTxData_valid SampleTxData_roundtrip) as [H1 H2].
  split.
  - apply H1. repeat split.
  - apply H2. split; [repeat split|]. split; [reflexivity|].
    repeat constructor.
Defined.

(** C2, witness of the amended claim: after the sample header, a count
    with a redundant zero byte, and a count of 2 followed by one payload
    and the first five bytes of a second one. *)
Lemma Block_Scan_count_or_payload_error_witness :
  (exists extra,
      SampleBlock_Scan (VBytes (BlockHeader_bytes sample_header
                                ++ [x80; x00]))
                       (zeroBlock SampleTxData)
      = (mkBlock sample_header ([] ++ extra),
         Some (ErrCodec MalformedValue))) /\
  (exists extra,
      SampleBlock_Scan
        (VBytes (BlockHeader_bytes sample_header ++ uvarint 2 ++
                 txs_layout SampleTxData_bytes [SampleNewTx sample_data1] ++
                 firstn 5 (SampleTxData_bytes sample_data2)))
        (zeroBlock SampleTxData)
      = (mkBlock sample_header
                 ([] ++ [SampleNewTx sample_data1] ++ extra),
         Some (ErrCodec TruncatedInput))).
Proof.
  destruct (@Block_Scan_count_or_payload_error sample_hash256 SampleTxData
              SampleTxData_bytes SampleTxData_readFrom SampleTxData_valid
              SampleTxData_roundtrip SampleTxData_latching
              (zeroBlock SampleTxData) sample_header)
    as [H1 H2].
  - reflexivity.
  - repeat split.
  - split.
    + apply (H1 [x80; x00] MalformedValue). reflexivity.
    + apply (H2 2 [SampleNewTx sample_data1]
                (firstn 5 (SampleTxData_bytes sample_data2))
                TruncatedInput).
      * vm_compute. discriminate.
      * repeat constructor.
      * simpl. lia.
      * reflexivity.
Defined.

(** C2, counterexample. Decoding the encoding of the sample block cut
    after its first transaction into a fresh receiver fails, and the
    receiver is not left as it was: it carries the decoded header and the
    transaction decoded before the error. *)
Lemma Block_Scan_error_keeps_decoded_state :
  SampleBlock_Scan (VBytes sample_short_input) (zeroBlock SampleTxData)
  = (mkBlock sample_header
             [SampleNewTx sample_data1;
              SampleNewTx (mkSampleTxData 0 0 [])],
     Some (ErrCodec TruncatedInput)) /\
  fst (SampleBlock_Scan (VBytes sample_short_input) (zeroBlock SampleTxData))
  <> zeroBlock SampleTxData /\
  In (SampleNewTx sample_data1)
     (Transactions
        (fst (SampleBlock_Scan (VBytes sample_short_input)
                               (zeroBlock SampleTxData)))).
Proof.
  assert (E : SampleBlock_Scan (VBytes sample_short_input)
                               (zeroBlock SampleTxData)
              = (mkBlock sample_header
                         [SampleNewTx sample_data1;
                          SampleNewTx (mkSampleTxData 0 0 [])],
                 Some (ErrCodec TruncatedInput)))
    by (vm_compute; reflexivity).
  split; [exact E|]. rewrite E. cbn [fst Transactions]. split.
  - intros H. apply (f_equal (fun b => length (Transactions b))) in H.
    discriminate H.
  - left. reflexivity.
Qed.

(** C3, witness: the genesis header with and without a signature. *)
Lemma HashForSig_ignores_SignatureScript_witness :
  BlockHeader_HashForSig sample_hash256 sample_header
  = BlockHeader_HashForSig sample_hash256
      (set_SignatureScript [x01; x02; x03] sample_header) /\
  snd (BlockHeader_WriteForSigTo sample_header [])
  = snd (BlockHeader_WriteTo (set_SignatureScript [] sample_header) []).
Proof.
  apply (HashForSig_ignores_SignatureScript sample_hash256 sample_header
           (set_SignatureScript [x01; x02; x03] sample_header));
    reflexivity.
Defined.

(** C4, witness: on a commitment of 70 bytes, byte 40 survives
    [SetTxRoot] and bytes 5 and 66 survive [SetStateRoot]. *)
Lemma commitment_setters_frame_witness :
  let bh := set_Commitment sample_commitment sample_header in
  nth_error (Commitment (BlockHeader_SetTxRoot (repeat x11 32) bh)) 40
  = nth_error (Commitment bh) 40 /\
  nth_error (Commitment (BlockHeader_SetStateRoot (repeat x11 32) bh)) 5
  = nth_error (Commitment bh) 5 /\
  nth_error (Commitment (BlockHeader_SetStateRoot (repeat x11 32) bh)) 66
  = nth_error (Commitment bh) 66.
Proof.
  cbv zeta.
  destruct (commitment_setters_frame
              (set_Commitment sample_commitment sample_header)
              (repeat x11 32))
    as (_ & H1 & _ & H2 & _ & H3).
  split; [|split].
  - apply H1. lia.
  - apply H2; simpl; lia.
  - apply H3. lia.
Defined.

(** C5, witness: the commitment scenario on a zero header. *)
Lemma commitment_roots_witness :
  let bh' := BlockHeader_SetStateRoot (repeat x22 32)
               (BlockHeader_SetTxRoot (repeat x11 32) zeroBlockHeader) in
  BlockHeader_TxRoot bh' = repeat x11 32 /\
  BlockHeader_StateRoot bh' = repeat x22 32 /\
  length (Commitment bh') = 64%nat.
Proof.
  apply (proj2 (proj2 (commitment_roots zeroBlockHeader
                         (repeat x11 32) (repeat x22 32))));
    reflexivity.
Defined.

(** C7, witness: an integer and a NULL handed to [Scan]. *)
Lemma Scan_rejects_non_bytes_witness :
  BlockHeader_Scan (VInt64 5) sample_header
  = (sample_header, Some ErrScanByteSlice) /\
  SampleBlock_Scan VNil sample_block
  = (sample_block, Some ErrScanByteSlice).
Proof.
  destruct (Scan_rejects_non_bytes sample_hash256 SampleTxData_bytes
              SampleTxData_readFrom) as (H1 & H2 & _).
  split; [apply H1 | apply H2]; reflexivity.
Defined.

(** C9, witness: a commitment of 70 bytes, neither 64 bytes long nor
    aligned to the slots, is decoded verbatim. *)
Lemma readFrom_accepts_any_commitment_witness :
  BlockHeader_readFrom zeroBlockHeader
    (NewReader
       (BlockHeader_bytes (set_Commitment sample_commitment sample_header)
        ++ [xff]))
  = (set_Commitment sample_commitment sample_header, NewReader [xff]).
Proof.
  apply (proj1 readFrom_accepts_any_commitment).
  - reflexivity.
  - repeat split.
  - reflexivity.
Defined.

(** C10, witness: a receiver that holds one transaction ends with three
    after decoding the sample block. *)
Lemma Block_readFrom_appends_witness :
  SampleBlock_Scan
    (VBytes (snd (Block_WriteTo SampleTxData_bytes sample_block [])))
    sample_receiver
  = (mkBlock sample_header
             (Transactions sample_receiver ++ Transactions sample_block),
     None) /\
  (Transactions sample_receiver ++ Transactions sample_block
   = Transactions sample_block
   <-> Transactions sample_receiver = []).
Proof.
  apply (@Block_readFrom_appends sample_hash256 SampleTxData
           SampleTxData_bytes SampleTxData_readFrom SampleTxData_valid
           SampleTxData_roundtrip sample_receiver sample_block).
  - reflexivity.
  - split; [repeat split|]. split; [reflexivity|]. repeat constructor.
Defined.

(** ** The persistence hooks *)

Lemma BlockHeader_Value_bytes bh :
  BlockHeader_Value bh = (VBytes (BlockHeader_bytes bh), None).
Proof.
  unfold BlockHeader_Value, BlockHeader_bytes, BlockHeader_WriteTo, finish.
  rewrite (emits_BlockHeader_writeTo bh false (NewWriter []) eq_refl).
  reflexivity.
Qed.

(** What [Value] stores, [Scan] reads back into a fresh header. *)
Lemma BlockHeader_Scan_Value bh :
  wf_BlockHeader bh ->
  BlockHeader_Scan (fst (BlockHeader_Value bh)) zeroBlockHeader
  = (bh, None).
Proof.
  intros Hwf. rewrite BlockHeader_Value_bytes. cbn [fst BlockHeader_Scan].
  rewrite BlockHeader_bytes_layout.
  rewrite <- (app_nil_r (header_layout bh false)). unfold NewReader.
  rewrite (@parses_BlockHeader_readFrom zeroBlockHeader bh eq_refl Hwf).
  reflexivity.
Qed.

(** ** Concrete runs *)

Example uvarint_300 : uvarint 300 = [xac; x02].
Proof. reflexivity. Qed.

Example uvarint_max :
  blockchain_ReadUvarint (NewReader (uvarint (2 ^ 64 - 1) ++ [x2a]))
  = (2 ^ 64 - 1, NewReader [x2a]).
Proof. vm_compute. reflexivity. Qed.

(** A zero byte after a continuation byte is a redundant encoding. *)
Example uvarint_redundant :
  blockchain_ReadUvarint (NewReader [x80; x00])
  = (0, mkReader [] (Some MalformedValue)).
Proof. reflexivity. Qed.

(** An eleventh byte overflows 64 bits. *)
Example uvarint_overflow :
  Err (snd (blockchain_ReadUvarint
              (NewReader [xff; xff; xff; xff; xff; xff; xff; xff; xff;
                          x81; x00])))
  = Some MalformedValue.
Proof. reflexivity. Qed.

Example uvarint_truncated :
  blockchain_ReadUvarint (NewReader [x80])
  = (0, mkReader [] (Some TruncatedInput)).
Proof. reflexivity. Qed.

(** The layout of the genesis header: 4 + 8 + 32 + (1 + 64) + 8 + 1 +
    (1 + 1) bytes. *)
Example sample_header_length :
  length (BlockHeader_bytes sample_header) = 120%nat.
Proof. reflexivity. Qed.

(** With an empty signature script the two encodings of a header
    coincide, and so do the two hashes, whatever the digest function. *)
Example sample_header_hashes (hash256 : list byte -> Hash) :
  BlockHeader_Hash hash256 sample_header
  = BlockHeader_HashForSig hash256 sample_header.
Proof. reflexivity. Qed.

(** A block without transactions is its header followed by one zero
    count byte, and decodes to an empty transaction list. *)
Example empty_block_bytes :
  Block_bytes SampleTxData_bytes (mkBlock sample_header [])
  = BlockHeader_bytes sample_header ++ [x00] /\
  SampleBlock_Scan (VBytes (BlockHeader_bytes sample_header ++ [x00]))
                   (zeroBlock SampleTxData)
  = (mkBlock sample_header [], None).
Proof. split; vm_compute; reflexivity. Qed.

(** A header cut inside the previous-block hash: the bytes that were read
    overwrite the front of the receiver's hash array. *)
Example header_truncated_in_hash :
  BlockHeader_Scan
    (VBytes (firstn 14 (BlockHeader_bytes
                          (mkBlockHeader 1 0 (repeat x33 32) [] 0 [] []))))
    zeroBlockHeader
  = (mkBlockHeader 1 0 ([x33; x33] ++ make 30) [] 0 [] [],
     Some (ErrCodec TruncatedInput)).
Proof. vm_compute. reflexivity. Qed.

(** The setters on a short commitment: [SetTxRoot] starts from a zeroed
    buffer, [SetStateRoot] keeps the bytes present and fills with zeros. *)
Example SetTxRoot_short :
  Commitment (BlockHeader_SetTxRoot (repeat x11 32)
                (set_Commitment [x01; x02] zeroBlockHeader))
  = repeat x11 32.
Proof. reflexivity. Qed.

Example SetStateRoot_short :
  Commitment (BlockHeader_SetStateRoot (repeat x22 32)
                (set_Commitment [x01; x02] zeroBlockHeader))
  = [x01; x02] ++ make 30 ++ repeat x22 32.
Proof. reflexivity. Qed.

(* ================================================================== *)
(** * Further properties of the header codec *)

(** ** What [WriteTo] delivers *)

(** X1. [BlockHeader.WriteTo] and [BlockHeader.WriteForSigTo] never
    fail; they append the fields in their fixed layout to the sink,
    keeping what the sink held, and return the number of bytes appended.
    The ForSigning layout has an empty string in place of the signature
    script. *)
Theorem BlockHeader_WriteTo_layout (bh : BlockHeader) (w : list byte) :
  BlockHeader_WriteTo bh w
  = ((Z.of_nat (length (header_layout bh false)), None),
     w ++ header_layout bh false) /\
  BlockHeader_WriteForSigTo bh w
  = ((Z.of_nat (length (header_layout bh true)), None),
     w ++ header_layout bh true).
Proof.
  unfold BlockHeader_WriteTo, BlockHeader_WriteForSigTo, finish.
  rewrite !(emits_BlockHeader_writeTo bh _ (NewWriter w) eq_refl).
  split; reflexivity.
Qed.

(** ** Trailing bytes and the receiver *)

Lemma BlockHeader_Scan_parses recv bh rest :
  wf_Hash (PreviousBlockHash recv) ->
  wf_BlockHeader bh ->
  BlockHeader_Scan (VBytes (BlockHeader_bytes bh ++ rest)) recv = (bh, None).
Proof.
  intros Hr Hwf. cbn [BlockHeader_Scan].
  rewrite BlockHeader_bytes_layout. unfold NewReader.
  rewrite (@parses_BlockHeader_readFrom recv bh Hr Hwf).
  reflexivity.
Qed.

(** X2. [BlockHeader.Scan] does not require the input to end with the
    header: bytes after the encoding are ignored without error; and a
    successful scan overwrites every field of the receiver, so the result
    does not depend on what the receiver held. *)
Theorem BlockHeader_Scan_ignores_trailing_bytes recv bh rest :
  wf_Hash (PreviousBlockHash recv) ->
  wf_BlockHeader bh ->
  BlockHeader_Scan (VBytes (snd (BlockHeader_WriteTo bh []) ++ rest)) recv
  = (bh, None).
Proof. apply BlockHeader_Scan_parses. Qed.

Lemma BlockHeader_Scan_ignores_trailing_bytes_witness :
  BlockHeader_Scan
    (VBytes (snd (BlockHeader_WriteTo sample_header []) ++ [x01; x02]))
    (set_Commitment sample_commitment zeroBlockHeader)
  = (sample_header, None).
Proof.
  apply (@BlockHeader_Scan_ignores_trailing_bytes
           (set_Commitment sample_commitment zeroBlockHeader)
           sample_header [x01; x02]).
  - reflexivity.
  - repeat split.
Defined.

(** X3. The persistence hooks compose: [BlockHeader.Value] never fails
    and yields the Full encoding as a byte slice, and [Scan] of that
    value restores the header in a fresh receiver. *)
Theorem BlockHeader_Value_Scan bh :
  wf_BlockHeader bh ->
  BlockHeader_Value bh = (VBytes (snd (BlockHeader_WriteTo bh [])), None) /\
  BlockHeader_Scan (fst (BlockHeader_Value bh)) zeroBlockHeader = (bh, None).
Proof.
  intros Hwf. split.
  - apply BlockHeader_Value_bytes.
  - now apply BlockHeader_Scan_Value.
Qed.

Lemma BlockHeader_Value_Scan_witness :
  BlockHeader_Value sample_header
  = (VBytes (snd (BlockHeader_WriteTo sample_header [])), None) /\
  BlockHeader_Scan (fst (BlockHeader_Value sample_header)) zeroBlockHeader
  = (sample_header, None).
Proof. apply (@BlockHeader_Value_Scan sample_header). repeat split. Defined.

(** ** The encoding is unambiguous *)

Lemma header_layout_inj x y r1 r2 :
  wf_BlockHeader x -> wf_BlockHeader y ->
  header_layout x false ++ r1 = header_layout y false ++ r2 ->
  x = y /\ r1 = r2.
Proof.
  intros Hx Hy E.
  pose proof (@parses_BlockHeader_readFrom zeroBlockHeader x eq_refl Hx r1)
    as Px.
  pose proof (@parses_BlockHeader_readFrom zeroBlockHeader y eq_refl Hy r2)
    as Py.
  rewrite E, Py in Px. inversion Px. now split.
Qed.

Lemma BlockHeader_bytes_inj_aux x y :
  wf_BlockHeader x -> wf_BlockHeader y ->
  snd (BlockHeader_WriteTo x []) = snd (BlockHeader_WriteTo y []) ->
  x = y /\ @nil byte = [].
Proof.
  intros Hx Hy E.
  apply (@header_layout_inj x y [] [] Hx Hy).
  rewrite <- !BlockHeader_bytes_layout. unfold BlockHeader_bytes.
  now rewrite E.
Qed.

(** X4. The Full encoding determines the header: two headers whose
    encodings agree, even followed by different trailing bytes, are equal
    field for field, and the trailing bytes agree. No encoding is a
    proper prefix of another. *)
Theorem BlockHeader_encoding_injective x y r1 r2 :
  wf_BlockHeader x -> wf_BlockHeader y ->
  snd (BlockHeader_WriteTo x []) ++ r1 = snd (BlockHeader_WriteTo y []) ++ r2 ->
  x = y /\ r1 = r2.
Proof.
  intros Hx Hy.
  change (snd (BlockHeader_WriteTo x [])) with (BlockHeader_bytes x).
  change (snd (BlockHeader_WriteTo y [])) with (BlockHeader_bytes y).
  rewrite !BlockHeader_bytes_layout. now apply header_layout_inj.
Qed.

Lemma BlockHeader_encoding_injective_witness :
  sample_header = sample_header /\ [x05] = [x05].
Proof.
  apply (@BlockHeader_encoding_injective sample_header sample_header
           [x05] [x05]); [repeat split | repeat split | reflexivity].
Defined.

(** X5. The Full and the ForSigning encodings of a header coincide
    exactly when its signature script is empty; in that case [Hash] and
    [HashForSig] are equal, whatever the digest function. *)
Theorem Hash_HashForSig_unsigned bh :
  wf_BlockHeader bh ->
  (snd (BlockHeader_WriteTo bh []) = snd (BlockHeader_WriteForSigTo bh [])
   <-> SignatureScript bh = []) /\
  (SignatureScript bh = [] ->
   forall hash256, BlockHeader_Hash hash256 bh
                   = BlockHeader_HashForSig hash256 bh).
Proof.
  intros Hwf.
  assert (Hs : snd (BlockHeader_WriteForSigTo bh [])
               = snd (BlockHeader_WriteTo (set_SignatureScript [] bh) [])).
  { change (BlockHeader_sig_bytes bh
            = BlockHeader_bytes (set_SignatureScript [] bh)).
    now rewrite BlockHeader_sig_bytes_layout, BlockHeader_bytes_layout. }
  assert (Hiff : snd (BlockHeader_WriteTo bh [])
                 = snd (BlockHeader_WriteForSigTo bh [])
                 <-> SignatureScript bh = []).
  { rewrite Hs. split.
    - intros E.
      assert (Hwf' : wf_BlockHeader (set_SignatureScript [] bh)).
      { destruct Hwf as (Hv & Hh & Hp & Hc & Ht & _ & Ho).
        repeat split; assumption. }
      destruct (@BlockHeader_bytes_inj_aux bh (set_SignatureScript [] bh)
                  Hwf Hwf' E) as [Hb _].
      now rewrite Hb.
    - intros E. destruct bh. cbn in E. subst.
      reflexivity. }
  split; [exact Hiff|].
  intros E hash256. unfold BlockHeader_Hash, BlockHeader_HashForSig.
  f_equal. now apply Hiff.
Qed.

Lemma Hash_HashForSig_unsigned_witness :
  (snd (BlockHeader_WriteTo sample_header [])
   = snd (BlockHeader_WriteForSigTo sample_header [])
   <-> SignatureScript sample_header = []) /\
  (SignatureScript sample_header = [] ->
   forall hash256, BlockHeader_Hash hash256 sample_header
                   = BlockHeader_HashForSig hash256 sample_header).
Proof. apply (@Hash_HashForSig_unsigned sample_header). repeat split. Defined.

(** ** Truncated input *)

Lemma truncating_nil {A : Type} (m : State Reader A) : truncating m [].
Proof. intros k Hk. cbn in Hk. lia. Qed.

Lemma truncating_bind {A B : Type} (m : State Reader A)
      (k : A -> State Reader B) b1 b2 a :
  parses m b1 a ->
  truncating m b1 ->
  (forall a', latching (k a')) ->
  truncating (k a) b2 ->
  truncating (bind m k) (b1 ++ b2).
Proof.
  intros Hp Ht Hl Hk n Hn. rewrite length_app in Hn.
  rewrite firstn_app. unfold bind.
  destruct (Nat.lt_ge_cases n (length b1)) as [Hlt|Hge].
  - replace (n - length b1)%nat with O by lia.
    rewrite firstn_O, app_nil_r.
    pose proof (Ht n Hlt) as He.
    destruct (m (NewReader (firstn n b1))) as [a' r'].
    cbn [snd] in He. now rewrite (Hl a' r' _ He).
  - rewrite firstn_all2 by exact Hge.
    unfold NewReader. rewrite Hp.
    apply (Hk (n - length b1)%nat). lia.
Qed.

Lemma truncating_ReadFull buf bs :
  length buf = length bs -> truncating (ReadFull buf) bs.
Proof.
  intros Hl k Hk. unfold ReadFull, NewReader. cbn [Err R].
  replace (length buf <=? length (firstn k bs))%nat with false; [reflexivity|].
  symmetry. apply Nat.leb_gt. rewrite length_firstn. lia.
Qed.

Lemma truncating_uvarint_loop f :
  forall x s acc k,
    (k < length (uvarint_bytes f x))%nat ->
    uvarint_loop (S f) s acc (NewReader (firstn k (uvarint_bytes f x)))
    = (0, mkReader [] (Some TruncatedInput)).
Proof.
  assert (Hone : forall f s acc b k,
             (k < length [b])%nat ->
             uvarint_loop (S f) s acc (NewReader (firstn k [b]))
             = (0, mkReader [] (Some TruncatedInput))).
  { intros f0 s acc b k Hk. cbn in Hk.
    replace k with O by lia. reflexivity. }
  induction f as [|f IH]; intros x s acc k Hk.
  - now apply Hone.
  - cbn [uvarint_bytes] in *.
    destruct (x <? 128); [now apply Hone|].
    destruct k as [|k]; [reflexivity|].
    cbn [firstn length] in *.
    rewrite uvarint_loop_S. unfold bind, NewReader.
    rewrite ReadByte_cons. cbv zeta. rewrite to_N_byte_of_N.
    pose proof (N.mod_upper_bound x 128 ltac:(lia)) as Hm.
    assert (Hq : x mod 128 + 128 < 256) by (clear - Hm; lia).
    rewrite (N.mod_small _ _ Hq).
    assert (Hge : (x mod 128 + 128 <? 128) = false)
      by (apply N.ltb_ge, N.le_add_l).
    rewrite Hge. apply IH. lia.
Qed.

Lemma truncating_ReadUvarint x : truncating blockchain_ReadUvarint (uvarint x).
Proof.
  intros k Hk. unfold blockchain_ReadUvarint, uvarint in *.
  change 10%nat with (S 9). now rewrite truncating_uvarint_loop.
Qed.

Lemma truncating_ReadUint32 v :
  truncating blockchain_ReadUint32 (le_bytes 4 v).
Proof.
  intros k Hk. unfold blockchain_ReadUint32, bind.
  pose proof (@truncating_ReadFull (make 4) (le_bytes 4 v)
                ltac:(now rewrite length_make, length_le_bytes) k Hk) as H.
  destruct (ReadFull (make 4) (NewReader (firstn k (le_bytes 4 v)))).
  exact H.
Qed.

Lemma truncating_ReadUint64 v :
  truncating blockchain_ReadUint64 (le_bytes 8 v).
Proof.
  intros k Hk. unfold blockchain_ReadUint64, bind.
  pose proof (@truncating_ReadFull (make 8) (le_bytes 8 v)
                ltac:(now rewrite length_make, length_le_bytes) k Hk) as H.
  destruct (ReadFull (make 8) (NewReader (firstn k (le_bytes 8 v)))).
  exact H.
Qed.

Lemma truncating_ReadBytes data :
  N.of_nat (length data) < 2 ^ 64 ->
  truncating blockchain_ReadBytes (varstring data).
Proof.
  intros Hl. unfold blockchain_ReadBytes, varstring.
  assert (Hn : len64 data = N.of_nat (length data))
    by (unfold len64; now rewrite N.mod_small).
  eapply truncating_bind.
  - apply parses_ReadUvarint. rewrite Hn. exact Hl.
  - apply truncating_ReadUvarint.
  - intros n. apply latching_ReadFull.
  - apply truncating_ReadFull. now rewrite Hn, Nat2N.id, length_make.
Qed.

(** Latching of a chain of primitive reads. *)
Ltac latch :=
  repeat first
    [ apply latching_ret
    | apply latching_bind;
      [ first [ apply latching_ReadUint32 | apply latching_ReadUint64
              | apply latching_ReadBytes | apply latching_ReadFull ]
      | intros ? ] ].

Lemma truncating_BlockHeader_readFrom recv bh :
  wf_Hash (PreviousBlockHash recv) ->
  wf_BlockHeader bh ->
  truncating (BlockHeader_readFrom recv) (header_layout bh false).
Proof.
  intros Hr (Hv & Hh & Hp & Hc & Ht & Hs & Ho).
  unfold BlockHeader_readFrom, header_layout.
  eapply truncating_bind;
    [now apply parses_ReadUint32 | apply truncating_ReadUint32
     | intros ?; latch |].
  eapply truncating_bind;
    [now apply parses_ReadUint64 | apply truncating_ReadUint64
     | intros ?; latch |].
  assert (Hlen : length (PreviousBlockHash recv)
                 = length (PreviousBlockHash bh))
    by (unfold wf_Hash in *; congruence).
  eapply truncating_bind;
    [now apply parses_ReadFull | now apply truncating_ReadFull
     | intros ?; latch |].
  eapply truncating_bind;
    [now apply parses_ReadBytes | now apply truncating_ReadBytes
     | intros ?; latch |].
  eapply truncating_bind;
    [now apply parses_ReadUint64 | apply truncating_ReadUint64
     | intros ?; latch |].
  eapply truncating_bind;
    [now apply parses_ReadBytes | now apply truncating_ReadBytes
     | intros ?; latch |].
  rewrite <- (app_nil_r (varstring (OutputScript bh))).
  eapply truncating_bind;
    [now apply parses_ReadBytes | now apply truncating_ReadBytes
     | intros ?; latch | apply truncating_nil].
Qed.

(** X6. Truncation is detected: scanning any proper prefix of the Full
    encoding of a header fails with [TruncatedInput]; it never succeeds
    and never reports a malformed value. *)
Theorem BlockHeader_Scan_truncated recv bh k :
  wf_Hash (PreviousBlockHash recv) ->
  wf_BlockHeader bh ->
  (k < length (snd (BlockHeader_WriteTo bh [])))%nat ->
  snd (BlockHeader_Scan
         (VBytes (firstn k (snd (BlockHeader_WriteTo bh [])))) recv)
  = Some (ErrCodec TruncatedInput).
Proof.
  change (snd (BlockHeader_WriteTo bh [])) with (BlockHeader_bytes bh).
  rewrite BlockHeader_bytes_layout. intros Hr Hwf Hk.
  cbn [BlockHeader_Scan].
  pose proof (@truncating_BlockHeader_readFrom recv bh Hr Hwf k Hk) as H.
  destruct (BlockHeader_readFrom recv
              (NewReader (firstn k (header_layout bh false)))) as [x r].
  cbn [snd] in *. now rewrite H.
Qed.

Lemma BlockHeader_Scan_truncated_witness :
  snd (BlockHeader_Scan
         (VBytes (firstn 119 (snd (BlockHeader_WriteTo sample_header []))))
         zeroBlockHeader)
  = Some (ErrCodec TruncatedInput).
Proof.
  apply (@BlockHeader_Scan_truncated zeroBlockHeader sample_header 119).
  - reflexivity.
  - repeat split.
  - vm_compute. lia.
Defined.

(** ** [Time] beyond the signed range *)

Lemma wrap64_id z :
  (- 2 ^ 63 <= z < 2 ^ 63)%Z -> wrap64 z = z.
Proof.
  intros H. destruct (Z.lt_ge_cases z 0) as [Hn|Hp].
  - unfold wrap64.
    assert (E : (z mod 2 ^ 64 = z + 2 ^ 64)%Z).
    { symmetry. apply (Z.mod_unique z (2 ^ 64) (-1) (z + 2 ^ 64)); lia. }
    rewrite E.
    replace (z + 2 ^ 64 <? 2 ^ 63)%Z with false
      by (symmetry; apply Z.ltb_ge; lia).
    lia.
  - apply wrap64_small. lia.
Qed.

Lemma int64_upper x :
  (2 ^ 63 <= Z.of_N x < 2 ^ 64)%Z -> int64 x = (Z.of_N x - 2 ^ 64)%Z.
Proof.
  intros H. unfold int64. rewrite Z.mod_small by lia.
  replace (Z.of_N x <? 2 ^ 63)%Z with false
    by (symmetry; apply Z.ltb_ge; lia).
  reflexivity.
Qed.

(** X7. A timestamp in the upper half of the unsigned 64-bit range is
    reinterpreted as a negative number of seconds: [Time] returns the
    instant [2^64 - Timestamp] seconds before the Unix epoch, still with
    zero sub-second part and in UTC. *)
Theorem Time_of_large_Timestamp (bh : BlockHeader) :
  (2 ^ 63 <= Z.of_N (Timestamp bh) < 2 ^ 64)%Z ->
  BlockHeader_Time bh
  = mkTime (Z.of_N (Timestamp bh) - 2 ^ 64 + unixToInternal) 0 UTC /\
  Time_epoch_seconds (BlockHeader_Time bh)
  = (Z.of_N (Timestamp bh) - 2 ^ 64)%Z /\
  (Time_epoch_seconds (BlockHeader_Time bh) < 0)%Z.
Proof.
  intros H.
  assert (E : BlockHeader_Time bh
              = mkTime (Z.of_N (Timestamp bh) - 2 ^ 64 + unixToInternal)
                       0 UTC).
  { unfold BlockHeader_Time, time_Unix, Time_UTC.
    change ((0 <? 0)%Z || (0 >=? 10 ^ 9)%Z) with false. cbv iota.
    cbn [sec nsec]. rewrite int64_upper by exact H.
    rewrite wrap64_id by (unfold unixToInternal; lia).
    reflexivity. }
  rewrite E. unfold Time_epoch_seconds. cbn [sec].
  repeat split; lia.
Qed.

Lemma Time_of_large_Timestamp_witness :
  BlockHeader_Time (mkBlockHeader 1 0 zeroHash [] (2 ^ 64 - 1) [] [])
  = mkTime (-1 + unixToInternal) 0 UTC /\
  Time_epoch_seconds
    (BlockHeader_Time (mkBlockHeader 1 0 zeroHash [] (2 ^ 64 - 1) [] []))
  = (-1)%Z /\
  (Time_epoch_seconds
     (BlockHeader_Time (mkBlockHeader 1 0 zeroHash [] (2 ^ 64 - 1) [] []))
   < 0)%Z.
Proof.
  apply (@Time_of_large_Timestamp
           (mkBlockHeader 1 0 zeroHash [] (2 ^ 64 - 1) [] [])).
  vm_compute. split; [discriminate | reflexivity].
Defined.

(** ** The commitment setters in closed form *)

Lemma firstn_make n m : firstn n (make m) = make (Nat.min n m).
Proof.
  unfold make. revert m. induction n as [|n IH]; intros m.
  - reflexivity.
  - destruct m as [|m]; [reflexivity|]. cbn. now rewrite IH.
Qed.

Lemma skipn_make n m : skipn n (make m) = make (m - n).
Proof. apply skipn_repeat. Qed.

Lemma firstn_pad32 (c : list byte) :
  firstn 32 (c ++ make 32)
  = if (length c <? 32)%nat then c ++ make (32 - length c)
    else firstn 32 c.
Proof.
  rewrite firstn_app.
  destruct (length c <? 32)%nat eqn:E.
  - apply Nat.ltb_lt in E. rewrite firstn_all2 by lia.
    rewrite firstn_make. f_equal. f_equal. lia.
  - apply Nat.ltb_ge in E.
    replace (32 - length c)%nat with O by lia.
    now rewrite firstn_O, app_nil_r.
Qed.

Lemma length_firstn_pad32 (c : list byte) :
  length (firstn 32 (c ++ make 32)) = 32%nat.
Proof.
  rewrite length_firstn, length_app, length_make. lia.
Qed.

Lemma Commitment_SetTxRoot d bh :
  wf_Hash d ->
  Commitment (BlockHeader_SetTxRoot d bh) = d ++ skipn 32 (Commitment bh).
Proof.
  intros Hd. unfold wf_Hash in Hd.
  unfold BlockHeader_SetTxRoot. cbn [Commitment set_Commitment].
  destruct (length (Commitment bh) <? 32)%nat eqn:E.
  - apply Nat.ltb_lt in E.
    rewrite copy_exact by (rewrite length_firstn, length_make; lia).
    rewrite skipn_make, (@skipn_all2 _ 32 (Commitment bh)) by lia.
    reflexivity.
  - apply Nat.ltb_ge in E.
    rewrite copy_exact by (rewrite length_firstn; lia).
    reflexivity.
Qed.

Lemma Commitment_SetStateRoot d bh :
  wf_Hash d ->
  Commitment (BlockHeader_SetStateRoot d bh)
  = firstn 32 (Commitment bh ++ make 32) ++ d ++ skipn 64 (Commitment bh).
Proof.
  intros Hd. unfold wf_Hash in Hd.
  unfold BlockHeader_SetStateRoot. cbn [Commitment set_Commitment].
  destruct (length (Commitment bh) <? 64)%nat eqn:E.
  - apply Nat.ltb_lt in E.
    assert (Hc : copy (make 64) (Commitment bh)
                 = Commitment bh ++ make (64 - length (Commitment bh))).
    { unfold copy. rewrite length_make, firstn_all2, skipn_make by lia.
      reflexivity. }
    rewrite Hc.
    rewrite copy_exact
      by (rewrite length_firstn, length_skipn, length_app, length_make; lia).
    rewrite (@skipn_all2 _ 64 (Commitment bh)) by lia.
    rewrite skipn_all2 by (rewrite length_app, length_make; lia).
    f_equal. rewrite !firstn_app, !firstn_make. f_equal. f_equal. lia.
  - apply Nat.ltb_ge in E.
    rewrite copy_exact by (rewrite length_firstn, length_skipn; lia).
    f_equal. rewrite firstn_app.
    replace (32 - length (Commitment bh))%nat with O by lia.
    now rewrite firstn_O, app_nil_r.
Qed.

(** X8. With a 32-byte digest [d], [SetTxRoot] leaves the commitment
    [d] followed by the old bytes from offset 32 on, so a commitment
    shorter than 32 bytes is replaced by [d] alone and its old bytes are
    dropped; [SetStateRoot] leaves the first 32 bytes of the old
    commitment padded with zeros, then [d], then the old bytes from
    offset 64 on. *)
Theorem commitment_setters_closed_form (d : Hash) (bh : BlockHeader) :
  wf_Hash d ->
  Commitment (BlockHeader_SetTxRoot d bh) = d ++ skipn 32 (Commitment bh) /\
  ((length (Commitment bh) < 32)%nat ->
   Commitment (BlockHeader_SetTxRoot d bh) = d) /\
  Commitment (BlockHeader_SetStateRoot d bh)
  = firstn 32 (Commitment bh ++ make 32) ++ d ++ skipn 64 (Commitment bh).
Proof.
  intros Hd. split; [|split].
  - now apply Commitment_SetTxRoot.
  - intros Hl. rewrite Commitment_SetTxRoot by exact Hd.
    rewrite skipn_all2 by lia. apply app_nil_r.
  - now apply Commitment_SetStateRoot.
Qed.

Lemma commitment_setters_closed_form_witness :
  let bh := set_Commitment [x01; x02] zeroBlockHeader in
  Commitment (BlockHeader_SetTxRoot (repeat x11 32) bh)
  = repeat x11 32 ++ skipn 32 (Commitment bh) /\
  ((length (Commitment bh) < 32)%nat ->
   Commitment (BlockHeader_SetTxRoot (repeat x11 32) bh) = repeat x11 32) /\
  Commitment (BlockHeader_SetStateRoot (repeat x11 32) bh)
  = firstn 32 (Commitment bh ++ make 32) ++ repeat x11 32
    ++ skipn 64 (Commitment bh).
Proof.
  cbv zeta.
  apply (@commitment_setters_closed_form (repeat x11 32)
           (set_Commitment [x01; x02] zeroBlockHeader)).
  reflexivity.
Defined.

(** X9. Reading a slot after writing it gives the digest written, on
    every header: [TxRoot] after [SetTxRoot d] is [d], and [StateRoot]
    after [SetStateRoot d] is [d]. *)
Theorem root_after_set (d : Hash) (bh : BlockHeader) :
  wf_Hash d ->
  BlockHeader_TxRoot (BlockHeader_SetTxRoot d bh) = d /\
  BlockHeader_StateRoot (BlockHeader_SetStateRoot d bh) = d.
Proof.
  intros Hd. split.
  - rewrite TxRoot_spec, length_SetTxRoot.
    replace (32 <=? Nat.max 32 (length (Commitment bh)))%nat with true
      by (symmetry; apply Nat.leb_le; lia).
    now apply SetTxRoot_slot.
  - rewrite StateRoot_spec, length_SetStateRoot.
    replace (64 <=? Nat.max 64 (length (Commitment bh)))%nat with true
      by (symmetry; apply Nat.leb_le; lia).
    now apply SetStateRoot_slot.
Qed.

Lemma root_after_set_witness :
  BlockHeader_TxRoot
    (BlockHeader_SetTxRoot (repeat x11 32)
       (set_Commitment sample_commitment sample_header))
  = repeat x11 32 /\
  BlockHeader_StateRoot
    (BlockHeader_SetStateRoot (repeat x11 32)
       (set_Commitment sample_commitment sample_header))
  = repeat x11 32.
Proof.
  apply (@root_after_set (repeat x11 32)
           (set_Commitment sample_commitment sample_header)).
  reflexivity.
Defined.

(** ** How the setters compose *)

Lemma firstn_32_prefix (p rest : list byte) :
  length p = 32%nat -> firstn 32 (p ++ rest) = p.
Proof.
  intros Hp. rewrite firstn_app, Hp, Nat.sub_diag, firstn_O, app_nil_r.
  rewrite <- Hp. apply firstn_all.
Qed.

Lemma skipn_32_prefix (p rest : list byte) :
  length p = 32%nat -> skipn 32 (p ++ rest) = rest.
Proof.
  intros Hp. rewrite skipn_app, Hp, Nat.sub_diag.
  rewrite <- Hp at 1. now rewrite skipn_all.
Qed.

Lemma skipn_64_prefix (p q rest : list byte) :
  length p = 32%nat -> length q = 32%nat ->
  skipn 64 (p ++ q ++ rest) = rest.
Proof.
  intros Hp Hq. change 64%nat with (32 + 32)%nat.
  rewrite <- skipn_skipn.
  now rewrite (skipn_32_prefix _ _ Hp), (skipn_32_prefix _ _ Hq).
Qed.

(** X10. Each setter and the other slot: [SetTxRoot] never changes what
    [StateRoot] returns. [SetStateRoot] keeps what [TxRoot] returns when
    the commitment has at least 32 bytes; on a shorter commitment
    [TxRoot], which returned the zero digest, returns the old bytes
    padded with zeros afterwards. *)
Theorem setter_and_other_root (d : Hash) (bh : BlockHeader) :
  wf_Hash d ->
  BlockHeader_StateRoot (BlockHeader_SetTxRoot d bh)
  = BlockHeader_StateRoot bh /\
  ((32 <= length (Commitment bh))%nat ->
   BlockHeader_TxRoot (BlockHeader_SetStateRoot d bh)
   = BlockHeader_TxRoot bh) /\
  ((length (Commitment bh) < 32)%nat ->
   BlockHeader_TxRoot bh = zeroHash /\
   BlockHeader_TxRoot (BlockHeader_SetStateRoot d bh)
   = Commitment bh ++ make (32 - length (Commitment bh))).
Proof.
  intros Hd.
  assert (HT : BlockHeader_TxRoot (BlockHeader_SetStateRoot d bh)
               = firstn 32 (Commitment bh ++ make 32)).
  { rewrite TxRoot_spec, length_SetStateRoot.
    replace (32 <=? Nat.max 64 (length (Commitment bh)))%nat with true
      by (symmetry; apply Nat.leb_le; lia).
    rewrite Commitment_SetStateRoot by exact Hd.
    apply firstn_32_prefix, length_firstn_pad32. }
  split; [|split].
  - rewrite !StateRoot_spec, length_SetTxRoot.
    destruct (64 <=? length (Commitment bh))%nat eqn:E.
    + apply Nat.leb_le in E.
      replace (64 <=? Nat.max 32 (length (Commitment bh)))%nat with true
        by (symmetry; apply Nat.leb_le; lia).
      rewrite Commitment_SetTxRoot by exact Hd.
      now rewrite (skipn_32_prefix _ _ Hd).
    + apply Nat.leb_gt in E.
      replace (64 <=? Nat.max 32 (length (Commitment bh)))%nat with false
        by (symmetry; apply Nat.leb_gt; lia).
      reflexivity.
  - intros Hl. rewrite HT, TxRoot_spec, firstn_pad32.
    replace (length (Commitment bh) <? 32)%nat with false
      by (symmetry; apply Nat.ltb_ge; lia).
    apply Nat.leb_le in Hl. now rewrite Hl.
  - intros Hl. split.
    + rewrite TxRoot_spec.
      replace (32 <=? length (Commitment bh))%nat with false
        by (symmetry; apply Nat.leb_gt; lia).
      reflexivity.
    + rewrite HT, firstn_pad32.
      apply Nat.ltb_lt in Hl. now rewrite Hl.
Qed.

Lemma setter_and_other_root_witness :
  let bh := set_Commitment [x01; x02] zeroBlockHeader in
  BlockHeader_StateRoot (BlockHeader_SetTxRoot (repeat x11 32) bh)
  = BlockHeader_StateRoot bh /\
  BlockHeader_TxRoot bh = zeroHash /\
  BlockHeader_TxRoot (BlockHeader_SetStateRoot (repeat x11 32) bh)
  = [x01; x02] ++ make 30.
Proof.
  cbv zeta.
  destruct (@setter_and_other_root (repeat x11 32)
              (set_Commitment [x01; x02] zeroBlockHeader) eq_refl)
    as (H1 & _ & H3).
  split; [exact H1|]. apply H3. simpl. lia.
Defined.

Lemma SetTxRoot_as_set_Commitment d bh :
  BlockHeader_SetTxRoot d bh
  = set_Commitment (Commitment (BlockHeader_SetTxRoot d bh)) bh.
Proof. reflexivity. Qed.

Lemma SetStateRoot_as_set_Commitment d bh :
  BlockHeader_SetStateRoot d bh
  = set_Commitment (Commitment (BlockHeader_SetStateRoot d bh)) bh.
Proof. reflexivity. Qed.

Lemma set_Commitment_twice c c' bh :
  set_Commitment c (set_Commitment c' bh) = set_Commitment c bh.
Proof. reflexivity. Qed.

(** X11. With 32-byte digests the two setters commute: writing the
    transaction root and the state root in either order gives the same
    header, whose commitment is the two digests followed by the old
    bytes from offset 64 on. *)
Theorem setters_commute (d1 d2 : Hash) (bh : BlockHeader) :
  wf_Hash d1 -> wf_Hash d2 ->
  BlockHeader_SetTxRoot d1 (BlockHeader_SetStateRoot d2 bh)
  = BlockHeader_SetStateRoot d2 (BlockHeader_SetTxRoot d1 bh) /\
  Commitment (BlockHeader_SetStateRoot d2 (BlockHeader_SetTxRoot d1 bh))
  = d1 ++ d2 ++ skipn 64 (Commitment bh).
Proof.
  intros H1 H2.
  assert (L : Commitment (BlockHeader_SetTxRoot d1
                            (BlockHeader_SetStateRoot d2 bh))
              = d1 ++ d2 ++ skipn 64 (Commitment bh)).
  { rewrite Commitment_SetTxRoot, Commitment_SetStateRoot by assumption.
    now rewrite (skipn_32_prefix _ _ (length_firstn_pad32 _)). }
  assert (Rt : Commitment (BlockHeader_SetStateRoot d2
                             (BlockHeader_SetTxRoot d1 bh))
               = d1 ++ d2 ++ skipn 64 (Commitment bh)).
  { rewrite Commitment_SetStateRoot, Commitment_SetTxRoot by assumption.
    rewrite <- app_assoc, (firstn_32_prefix _ _ H1).
    change 64%nat with (32 + 32)%nat at 1.
    rewrite <- skipn_skipn, (skipn_32_prefix _ _ H1), skipn_skipn.
    reflexivity. }
  split; [|exact Rt].
  rewrite SetTxRoot_as_set_Commitment, L.
  rewrite (SetStateRoot_as_set_Commitment d2 (BlockHeader_SetTxRoot d1 bh)),
    Rt.
  reflexivity.
Qed.

Lemma setters_commute_witness :
  BlockHeader_SetTxRoot (repeat x11 32)
    (BlockHeader_SetStateRoot (repeat x22 32)
       (set_Commitment sample_commitment sample_header))
  = BlockHeader_SetStateRoot (repeat x22 32)
      (BlockHeader_SetTxRoot (repeat x11 32)
         (set_Commitment sample_commitment sample_header)) /\
  Commitment
    (BlockHeader_SetStateRoot (repeat x22 32)
       (BlockHeader_SetTxRoot (repeat x11 32)
          (set_Commitment sample_commitment sample_header)))
  = repeat x11 32 ++ repeat x22 32
    ++ skipn 64 (Commitment (set_Commitment sample_commitment sample_header)).
Proof.
  apply (@setters_commute (repeat x11 32) (repeat x22 32)
           (set_Commitment sample_commitment sample_header));
    reflexivity.
Defined.

(** X12. The last write wins: setting a root twice gives the same header
    as setting it once to the second digest. *)
Theorem setters_overwrite (d1 d2 : Hash) (bh : BlockHeader) :
  wf_Hash d1 -> wf_Hash d2 ->
  BlockHeader_SetTxRoot d2 (BlockHeader_SetTxRoot d1 bh)
  = BlockHeader_SetTxRoot d2 bh /\
  BlockHeader_SetStateRoot d2 (BlockHeader_SetStateRoot d1 bh)
  = BlockHeader_SetStateRoot d2 bh.
Proof.
  intros H1 H2. split.
  - rewrite SetTxRoot_as_set_Commitment.
    rewrite (SetTxRoot_as_set_Commitment d2 bh).
    rewrite !Commitment_SetTxRoot by assumption.
    now rewrite (skipn_32_prefix _ _ H1).
  - rewrite SetStateRoot_as_set_Commitment.
    rewrite (SetStateRoot_as_set_Commitment d2 bh).
    rewrite !Commitment_SetStateRoot by assumption.
    rewrite <- app_assoc.
    rewrite (firstn_32_prefix _ _ (length_firstn_pad32 (Commitment bh))).
    now rewrite (skipn_64_prefix _ _ _ (length_firstn_pad32 (Commitment bh)) H1).
Qed.

Lemma setters_overwrite_witness :
  BlockHeader_SetTxRoot (repeat x22 32)
    (BlockHeader_SetTxRoot (repeat x11 32) sample_header)
  = BlockHeader_SetTxRoot (repeat x22 32) sample_header /\
  BlockHeader_SetStateRoot (repeat x22 32)
    (BlockHeader_SetStateRoot (repeat x11 32) sample_header)
  = BlockHeader_SetStateRoot (repeat x22 32) sample_header.
Proof.
  apply (@setters_overwrite (repeat x11 32) (repeat x22 32) sample_header);
    reflexivity.
Defined.

(* ================================================================== *)
(** * Further properties of the block codec *)

Lemma ReadUvarint_latched r e :
  Err r = Some e -> blockchain_ReadUvarint r = (0, r).
Proof.
  intros He. unfold blockchain_ReadUvarint.
  rewrite uvarint_loop_S. unfold bind, ReadByte. rewrite He. reflexivity.
Qed.

Lemma SampleTxData_truncating d :
  SampleTxData_valid d ->
  truncating SampleTxData_readFrom (SampleTxData_bytes d).
Proof.
  intros (Hv & Hl & Hm).
  assert (Hem : emits (SampleTxData_writeTo d)
                       (le_bytes 4 (SVersion d) ++ le_bytes 8 (SLockTime d)
                        ++ varstring (SMetadata d))).
  { unfold SampleTxData_writeTo.
    repeat (apply emits_bind; auto with emit). }
  unfold SampleTxData_bytes. rewrite (emits_W [] Hem). cbn [app].
  rewrite <- (app_nil_r (varstring (SMetadata d))).
  unfold SampleTxData_readFrom.
  eapply truncating_bind;
    [now apply parses_ReadUint32 | apply truncating_ReadUint32
     | intros ?; latch |].
  eapply truncating_bind;
    [now apply parses_ReadUint64 | apply truncating_ReadUint64
     | intros ?; latch |].
  eapply truncating_bind;
    [now apply parses_ReadBytes | now apply truncating_ReadBytes
     | intros ?; latch | apply truncating_nil].
Qed.

Section BlockCodecMore.

Variable hash256 : list byte -> Hash.
Variable TxData : Type.
Variable TxData_bytes : TxData -> list byte.
Variable TxData_readFrom : State Reader TxData.
Variable valid : TxData -> Prop.

#[local] Abbreviation NewTx' := (NewTx hash256 TxData_bytes).
#[local] Abbreviation readTxs' :=
  (readTxs hash256 TxData_bytes TxData_readFrom).
#[local] Abbreviation Block_readFrom' :=
  (Block_readFrom hash256 TxData_bytes TxData_readFrom).
#[local] Abbreviation Block_Scan' :=
  (Block_Scan hash256 TxData_bytes TxData_readFrom).
#[local] Abbreviation txs_layout' := (txs_layout TxData_bytes).
#[local] Abbreviation block_layout' := (block_layout TxData_bytes).
#[local] Abbreviation wf_Block' := (wf_Block hash256 TxData_bytes valid).
#[local] Abbreviation wf_Tx' :=
  (fun tx => valid (Tx_TxData tx) /\ tx = NewTx' (Tx_TxData tx)).

(** The payload codec round-trips on valid payloads. *)
Hypothesis TxData_roundtrip :
  forall d, valid d -> parses TxData_readFrom (TxData_bytes d) d.

(** The payload decoder reads through the latching reader only. *)
Hypothesis TxData_latching : latching TxData_readFrom.

(** The payload decoder detects a cut inside a payload. *)
Hypothesis TxData_truncating :
  forall d, valid d -> truncating TxData_readFrom (TxData_bytes d).

(** X13. [Block.WriteTo] never fails; it appends to the sink the Full
    layout of the header, the transaction count as a variable-length
    integer and the payloads in list order, keeping what the sink held,
    and returns the number of bytes appended. *)
Theorem Block_WriteTo_layout (b : Block TxData) (w : list byte) :
  Block_WriteTo TxData_bytes b w
  = ((Z.of_nat (length (block_layout' b false)), None),
     w ++ header_layout (Header b) false
       ++ uvarint (N.of_nat (length (Transactions b)))
       ++ concat (map (fun tx => TxData_bytes (Tx_TxData tx))
                      (Transactions b))).
Proof.
  unfold Block_WriteTo, Block_writeTo_sink, finish.
  rewrite (emits_Block_writeTo TxData_bytes b false (NewWriter w) eq_refl).
  reflexivity.
Qed.

Lemma Block_Scan_parses recv b rest :
  wf_Hash (PreviousBlockHash (Header recv)) ->
  wf_Block' b ->
  Block_Scan' (VBytes (Block_bytes TxData_bytes b ++ rest)) recv
  = (mkBlock (Header b) (Transactions recv ++ Transactions b), None).
Proof.
  intros Hr Hb. cbn [Block_Scan]. rewrite Block_bytes_layout.
  unfold NewReader.
  rewrite (@parses_Block_readFrom hash256 TxData TxData_bytes
             TxData_readFrom valid TxData_roundtrip recv b Hr Hb rest).
  reflexivity.
Qed.

(** X14. The persistence hooks of a block compose: [Block.Value] never
    fails and yields the Full encoding, and [Block.Scan] of that value,
    even followed by further bytes, restores the block in a fresh
    receiver. *)
Theorem Block_Value_Scan b rest :
  wf_Block' b ->
  Block_Value TxData_bytes b
  = (VBytes (snd (Block_WriteTo TxData_bytes b [])), None) /\
  Block_Scan' (VBytes (snd (Block_WriteTo TxData_bytes b []) ++ rest))
              (zeroBlock TxData)
  = (b, None).
Proof.
  intros Hb. split.
  - unfold Block_Value, Block_WriteTo, Block_writeTo_sink, finish.
    rewrite (emits_Block_writeTo TxData_bytes b false (NewWriter [])
               eq_refl).
    reflexivity.
  - change (snd (Block_WriteTo TxData_bytes b []))
      with (Block_bytes TxData_bytes b).
    rewrite (@Block_Scan_parses (zeroBlock TxData) b rest eq_refl Hb).
    now destruct b.
Qed.

(** X15. The encoding of a block starts with the encoding of its header:
    [BlockHeader.Scan] applied to the bytes of a block yields the
    block's header, whatever the transactions are. *)
Theorem BlockHeader_Scan_of_Block_bytes recv (b : Block TxData) :
  wf_Hash (PreviousBlockHash recv) ->
  wf_BlockHeader (Header b) ->
  BlockHeader_Scan (VBytes (snd (Block_WriteTo TxData_bytes b []))) recv
  = (Header b, None).
Proof.
  intros Hr Hh.
  change (snd (Block_WriteTo TxData_bytes b []))
    with (Block_bytes TxData_bytes b).
  rewrite Block_bytes_layout. unfold block_layout.
  rewrite <- BlockHeader_bytes_layout.
  now apply BlockHeader_Scan_parses.
Qed.

(** X16. When the header part of the input fails to decode,
    [Block.Scan] returns the error of the header, leaves the header
    fields as the failed header decode left them and appends no
    transaction. *)
Theorem Block_Scan_header_error buf (recv : Block TxData) h e :
  BlockHeader_Scan (VBytes buf) (Header recv) = (h, Some e) ->
  Block_Scan' (VBytes buf) recv = (mkBlock h (Transactions recv), Some e).
Proof.
  cbn [BlockHeader_Scan Block_Scan]. unfold Block_readFrom, bind.
  destruct (BlockHeader_readFrom (Header recv) (NewReader buf)) as [h' r].
  destruct (Err r) as [e'|] eqn:He; cbn [option_map]; [|discriminate].
  intros H. inversion H. subst h' e.
  rewrite (ReadUvarint_latched r He). cbn [N.to_nat readTxs]. unfold ret.
  now rewrite He.
Qed.

(** X17. A receiver that is used twice accumulates: scanning the same
    block bytes a second time into the block that the first scan filled
    keeps the header and leaves every transaction twice. *)
Theorem Block_Scan_twice b :
  wf_Block' b ->
  let v := VBytes (snd (Block_WriteTo TxData_bytes b [])) in
  Block_Scan' v (fst (Block_Scan' v (zeroBlock TxData)))
  = (mkBlock (Header b) (Transactions b ++ Transactions b), None).
Proof.
  intros Hb. cbv zeta.
  change (snd (Block_WriteTo TxData_bytes b []))
    with (Block_bytes TxData_bytes b).
  rewrite <- (app_nil_r (Block_bytes TxData_bytes b)).
  rewrite (@Block_Scan_parses (zeroBlock TxData) b [] eq_refl Hb).
  cbn [fst app].
  rewrite Block_Scan_parses; [reflexivity | | exact Hb].
  cbn [Header]. now destruct Hb as ((_ & _ & Hp & _) & _).
Qed.

(** X18. The Full encoding determines the block: two well-formed blocks
    whose encodings agree, even followed by different trailing bytes,
    have the same header and the same transactions in the same order. *)
Theorem Block_encoding_injective b1 b2 r1 r2 :
  wf_Block' b1 -> wf_Block' b2 ->
  snd (Block_WriteTo TxData_bytes b1 []) ++ r1
  = snd (Block_WriteTo TxData_bytes b2 []) ++ r2 ->
  b1 = b2 /\ r1 = r2.
Proof.
  intros H1 H2 E.
  change (snd (Block_WriteTo TxData_bytes b1 []))
    with (Block_bytes TxData_bytes b1) in E.
  change (snd (Block_WriteTo TxData_bytes b2 []))
    with (Block_bytes TxData_bytes b2) in E.
  rewrite !Block_bytes_layout in E.
  pose proof (@parses_Block_readFrom hash256 TxData TxData_bytes
                TxData_readFrom valid TxData_roundtrip
                (zeroBlock TxData) b1 eq_refl H1 r1) as P1.
  pose proof (@parses_Block_readFrom hash256 TxData TxData_bytes
                TxData_readFrom valid TxData_roundtrip
                (zeroBlock TxData) b2 eq_refl H2 r2) as P2.
  rewrite E, P2 in P1. inversion P1 as [[Hh Ht Hr]].
  split; [|reflexivity].
  destruct b1, b2. cbn in *. now subst.
Qed.

Lemma latching_readTxs n : forall acc, latching (readTxs' n acc).
Proof.
  induction n as [|n IH]; intros acc.
  - apply latching_ret.
  - cbn [readTxs]. apply latching_bind; [exact TxData_latching|].
    intros d. apply IH.
Qed.

Lemma truncating_readTxs txs :
  Forall wf_Tx' txs ->
  forall acc, truncating (readTxs' (length txs) acc) (txs_layout' txs).
Proof.
  induction 1 as [|tx txs [Hv Htx] Hf IH]; intros acc.
  - apply truncating_nil.
  - cbn [length readTxs txs_layout map concat].
    eapply truncating_bind.
    + apply TxData_roundtrip, Hv.
    + apply TxData_truncating, Hv.
    + intros d. apply latching_readTxs.
    + apply IH.
Qed.

Lemma truncating_Block_readFrom recv b :
  wf_Hash (PreviousBlockHash (Header recv)) ->
  wf_Block' b ->
  truncating (Block_readFrom' recv) (block_layout' b false).
Proof.
  intros Hr (Hh & Hn & Htxs).
  unfold Block_readFrom, block_layout.
  assert (Ltail : forall h n, latching
            (txs <- readTxs' (N.to_nat n) (Transactions recv) ;;
             ret (mkBlock h txs))).
  { intros h n. apply latching_bind; [apply latching_readTxs|].
    intros txs. apply latching_ret. }
  eapply truncating_bind.
  - now apply parses_BlockHeader_readFrom.
  - now apply truncating_BlockHeader_readFrom.
  - intros h. apply latching_bind; [apply latching_ReadUvarint|].
    intros n. apply Ltail.
  - eapply truncating_bind.
    + now apply parses_ReadUvarint.
    + apply truncating_ReadUvarint.
    + intros n. apply Ltail.
    + rewrite <- (app_nil_r (txs_layout' (Transactions b))).
      rewrite Nat2N.id.
      eapply truncating_bind.
      * now apply (@parses_readTxs hash256 TxData TxData_bytes
                     TxData_readFrom valid TxData_roundtrip).
      * now apply truncating_readTxs.
      * intros txs. apply latching_ret.
      * apply truncating_nil.
Qed.

(** X19. Truncation of a block is detected: scanning any proper prefix
    of the Full encoding of a block fails with [TruncatedInput],
    wherever the cut falls (in the header, in the count, inside a
    payload or between payloads). *)
Theorem Block_Scan_truncated recv b k :
  wf_Hash (PreviousBlockHash (Header recv)) ->
  wf_Block' b ->
  (k < length (snd (Block_WriteTo TxData_bytes b [])))%nat ->
  snd (Block_Scan'
         (VBytes (firstn k (snd (Block_WriteTo TxData_bytes b [])))) recv)
  = Some (ErrCodec TruncatedInput).
Proof.
  change (snd (Block_WriteTo TxData_bytes b []))
    with (Block_bytes TxData_bytes b).
  rewrite Block_bytes_layout. intros Hr Hb Hk.
  cbn [Block_Scan].
  pose proof (@truncating_Block_readFrom recv b Hr Hb k Hk) as H.
  destruct (Block_readFrom' recv
              (NewReader (firstn k (block_layout' b false)))) as [x r].
  cbn [snd] in *. now rewrite H.
Qed.

End BlockCodecMore.

(** ** Instances of the block properties at the sample values *)

Lemma Block_Value_Scan_witness :
  Block_Value SampleTxData_bytes sample_block
  = (VBytes (snd (Block_WriteTo SampleTxData_bytes sample_block [])), None) /\
  SampleBlock_Scan
    (VBytes (snd (Block_WriteTo SampleTxData_bytes sample_block [])
             ++ [x09]))
    (zeroBlock SampleTxData)
  = (sample_block, None).
Proof.
  apply (@Block_Value_Scan sample_hash256 SampleTxData SampleTxData_bytes
           SampleTxData_readFrom SampleTxData_valid SampleTxData_roundtrip
           sample_block [x09]).
  split; [repeat split|]. split; [reflexivity|]. repeat constructor.
Defined.

Lemma BlockHeader_Scan_of_Block_bytes_witness :
  BlockHeader_Scan
    (VBytes (snd (Block_WriteTo SampleTxData_bytes sample_block [])))
    zeroBlockHeader
  = (sample_header, None).
Proof.
  apply (@BlockHeader_Scan_of_Block_bytes SampleTxData SampleTxData_bytes
           zeroBlockHeader sample_block).
  - reflexivity.
  - repeat split.
Defined.

Lemma Block_Scan_header_error_witness :
  SampleBlock_Scan
    (VBytes (firstn 20 (BlockHeader_bytes sample_header))) sample_receiver
  = (mkBlock (mkBlockHeader 1 0 zeroHash [] 0 [] [])
             (Transactions sample_receiver),
     Some (ErrCodec TruncatedInput)).
Proof.
  apply (@Block_Scan_header_error sample_hash256 SampleTxData
           SampleTxData_bytes SampleTxData_readFrom
           (firstn 20 (BlockHeader_bytes sample_header)) sample_receiver
           (mkBlockHeader 1 0 zeroHash [] 0 [] [])
           (ErrCodec TruncatedInput)).
  vm_compute. reflexivity.
Defined.

Lemma Block_Scan_twice_witness :
  let v := VBytes (snd (Block_WriteTo SampleTxData_bytes sample_block [])) in
  SampleBlock_Scan v (fst (SampleBlock_Scan v (zeroBlock SampleTxData)))
  = (mkBlock sample_header
             (Transactions sample_block ++ Transactions sample_block),
     None).
Proof.
  apply (@Block_Scan_twice sample_hash256 SampleTxData SampleTxData_bytes
           SampleTxData_readFrom SampleTxData_valid SampleTxData_roundtrip
           sample_block).
  split; [repeat split|]. split; [reflexivity|]. repeat constructor.
Defined.

Lemma Block_encoding_injective_witness :
  sample_block = sample_block /\ [x05] = [x05].
Proof.
  apply (@Block_encoding_injective sample_hash256 SampleTxData
           SampleTxData_bytes SampleTxData_readFrom SampleTxData_valid
           SampleTxData_roundtrip sample_block sample_block [x05] [x05]).
  - split; [repeat split|]. split; [reflexivity|]. repeat constructor.
  - split; [repeat split|]. split; [reflexivity|]. repeat constructor.
  - reflexivity.
Defined.

Lemma Block_Scan_truncated_witness :
  snd (SampleBlock_Scan
         (VBytes (firstn 130
                    (snd (Block_WriteTo SampleTxData_bytes sample_block []))))
         sample_receiver)
  = Some (ErrCodec TruncatedInput).
Proof.
  apply (@Block_Scan_truncated sample_hash256 SampleTxData
           SampleTxData_bytes SampleTxData_readFrom SampleTxData_valid
           SampleTxData_roundtrip SampleTxData_latching
           SampleTxData_truncating sample_receiver sample_block 130).
  - reflexivity.
  - split; [repeat split|]. split; [reflexivity|]. repeat constructor.
  - vm_compute. lia.
Defined.

(** ** The signing encoding and the other fields *)

(** X20. The ForSigning encoding commits to every field but the
    signature script: two headers with the same ForSigning encoding
    agree on version, height, previous block hash, commitment, timestamp
    and output script. *)
Theorem ForSigning_encoding_determines_fields a b :
  wf_BlockHeader a -> wf_BlockHeader b ->
  snd (BlockHeader_WriteForSigTo a []) = snd (BlockHeader_WriteForSigTo b []) ->
  Version a = Version b /\
  Height a = Height b /\
  PreviousBlockHash a = PreviousBlockHash b /\
  Commitment a = Commitment b /\
  Timestamp a = Timestamp b /\
  OutputScript a = OutputScript b.
Proof.
  intros Ha Hb E.
  assert (Hs : forall x, snd (BlockHeader_WriteForSigTo x [])
                         = header_layout (set_SignatureScript [] x) false)
    by (intros x; apply BlockHeader_sig_bytes_layout).
  rewrite !Hs in E.
  assert (Hwf : forall x, wf_BlockHeader x ->
                          wf_BlockHeader (set_SignatureScript [] x)).
  { intros x (Hv & Hh & Hp & Hc & Ht & _ & Ho). repeat split; assumption. }
  destruct (@header_layout_inj (set_SignatureScript [] a)
              (set_SignatureScript [] b) [] [] (Hwf a Ha) (Hwf b Hb))
    as [Heq _].
  { now rewrite E. }
  inversion Heq. repeat split; assumption.
Qed.

Lemma ForSigning_encoding_determines_fields_witness :
  Version sample_header
  = Version (set_SignatureScript [x01] sample_header) /\
  Height sample_header
  = Height (set_SignatureScript [x01] sample_header) /\
  PreviousBlockHash sample_header
  = PreviousBlockHash (set_SignatureScript [x01] sample_header) /\
  Commitment sample_header
  = Commitment (set_SignatureScript [x01] sample_header) /\
  Timestamp sample_header
  = Timestamp (set_SignatureScript [x01] sample_header) /\
  OutputScript sample_header
  = OutputScript (set_SignatureScript [x01] sample_header).
Proof.
  apply (@ForSigning_encoding_determines_fields sample_header
           (set_SignatureScript [x01] sample_header)).
  - repeat split.
  - repeat split.
  - reflexivity.
Defined.

(** ** The announced count *)

Section BlockCount.

Variable hash256 : list byte -> Hash.
Variable TxData : Type.
Variable TxData_bytes : TxData -> list byte.
Variable TxData_readFrom : State Reader TxData.

Lemma readTxs_appends n :
  forall acc r,
  exists new,
    fst (readTxs hash256 TxData_bytes TxData_readFrom n acc r) = acc ++ new /\
    length new = n.
Proof.
  induction n as [|n IH]; intros acc r.
  - exists []. split; [cbn; now rewrite app_nil_r | reflexivity].
  - cbn [readTxs]. unfold bind.
    destruct (TxData_readFrom r) as [d r'].
    destruct (IH (acc ++ [NewTx hash256 TxData_bytes d]) r')
      as (new & Hnew & Hlen).
    exists (NewTx hash256 TxData_bytes d :: new). split.
    + rewrite Hnew. now rewrite <- app_assoc.
    + cbn. now rewrite Hlen.
Qed.

(** X21. The loop of [Block.readFrom] runs as often as the count
    announces and does not look at the reader's error: once the header
    and a count [n] are decoded, [n] being within the range of a slice
    length together with the transactions the receiver holds, exactly
    [n] transactions are appended to the receiver, whether the bytes that
    follow hold [n] payloads, fewer, or none at all. *)
Theorem Block_Scan_appends_announced_count
        (recv : Block TxData) (h : BlockHeader) (n : N) (rest : list byte) :
  wf_Hash (PreviousBlockHash (Header recv)) ->
  wf_BlockHeader h ->
  N.of_nat (length (Transactions recv)) + n <= maxInt ->
  exists new,
    length new = N.to_nat n /\
    fst (Block_Scan hash256 TxData_bytes TxData_readFrom
           (VBytes (snd (BlockHeader_WriteTo h []) ++ uvarint n ++ rest))
           recv)
    = mkBlock h (Transactions recv ++ new).
Proof.
  intros Hr Hh Hmax.
  assert (Hn : n < 2 ^ 64) by (unfold maxInt in Hmax; lia).
  change (snd (BlockHeader_WriteTo h [])) with (BlockHeader_bytes h).
  rewrite BlockHeader_bytes_layout.
  cbn [Block_Scan]. unfold Block_readFrom, NewReader.
  unfold bind at 1.
  rewrite (@parses_BlockHeader_readFrom (Header recv) h Hr Hh).
  unfold bind at 1. rewrite (parses_ReadUvarint Hn).
  destruct (readTxs_appends (N.to_nat n) (Transactions recv)
              (mkReader rest None)) as (new & Hnew & Hlen).
  exists new. split; [exact Hlen|].
  unfold bind.
  destruct (readTxs hash256 TxData_bytes TxData_readFrom (N.to_nat n)
              (Transactions recv) (mkReader rest None)) as [txs r].
  cbn [fst] in *. now rewrite Hnew.
Qed.

End BlockCount.

Lemma Block_Scan_appends_announced_count_witness :
  exists new,
    length new = N.to_nat 3 /\
    fst (SampleBlock_Scan
           (VBytes (snd (BlockHeader_WriteTo sample_header [])
                    ++ uvarint 3 ++ []))
           sample_receiver)
    = mkBlock sample_header (Transactions sample_receiver ++ new).
Proof.
  apply (@Block_Scan_appends_announced_count sample_hash256 SampleTxData
           SampleTxData_bytes SampleTxData_readFrom sample_receiver
           sample_header 3 []).
  - reflexivity.
  - repeat split.
  - vm_compute. discriminate.
Defined.
